(** * zk_bridge_events_snapshot: snapshot and commitment engine

    A shallow embedding of [app.py]: the range resolution of [main], the
    truncate / normalise / sort / encode / hash pipeline of [fetch_logs],
    and the properties the specification states about them.

    Python values are modelled as follows.
    - [int] is [Z] (unbounded, signed).
    - [bytes] / [HexBytes] is [list byte].
    - [str] is [string]; every character is a code point below 256.
    - a [set] of strings is a [gset string].
    - the log dictionaries built by [fetch_logs] have a fixed key set and
      are a record; they become a JSON object (an association list in
      insertion order) when handed to [json.dumps].
    - effects (RPC calls, stderr, stdout, [sys.exit], exceptions) are carried
      by a small state-and-error monad that records a trace of events. *)

From Stdlib Require Import ZArith List Ascii String Strings.Byte Lia Bool.
From Stdlib Require Import Sorting.Sorted DecimalString DecimalZ DecimalFacts.
From stdpp Require Import base decidable list gmap strings.

Import ListNotations.
Local Open Scope string_scope.
Local Open Scope list_scope.
Local Open Scope Z_scope.

(** ** Keccak-256, the hash behind [Web3.keccak] *)

Module Keccak.

Definition mask64 : Z := 0xFFFFFFFFFFFFFFFF.

Definition rotl64 (x n : Z) : Z :=
  Z.land (Z.lor (Z.shiftl x n) (Z.shiftr x (64 - n))) mask64.

(** The state is 25 lanes of 64 bits; lane (x, y) sits at index x + 5y. *)
Definition state := list Z.

Definition lane (st : state) (i : nat) : Z := nth i st 0.

Definition round_constants : list Z :=
  [ 0x0000000000000001; 0x0000000000008082; 0x800000000000808A;
    0x8000000080008000; 0x000000000000808B; 0x0000000080000001;
    0x8000000080008081; 0x8000000000008009; 0x000000000000008A;
    0x0000000000000088; 0x0000000080008009; 0x000000008000000A;
    0x000000008000808B; 0x800000000000008B; 0x8000000000008089;
    0x8000000000008003; 0x8000000000008002; 0x8000000000000080;
    0x000000000000800A; 0x800000008000000A; 0x8000000080008081;
    0x8000000000008080; 0x0000000080000001; 0x8000000080008008 ].

Definition rotation_offsets : list Z :=
  [  0;  1; 62; 28; 27;
    36; 44;  6; 55; 20;
     3; 10; 43; 25; 39;
    41; 45; 15; 21;  8;
    18;  2; 61; 56; 14 ].

Definition theta (st : state) : state :=
  let c := map (fun x => Z.lxor (lane st x)
                  (Z.lxor (lane st (x + 5))
                     (Z.lxor (lane st (x + 10))
                        (Z.lxor (lane st (x + 15)) (lane st (x + 20))))))
               (seq 0 5) in
  let d := map (fun x => Z.lxor (nth ((x + 4) mod 5) c 0)
                           (rotl64 (nth ((x + 1) mod 5) c 0) 1))
               (seq 0 5) in
  map (fun i => Z.lxor (lane st i) (nth (i mod 5) d 0)) (seq 0 25).

Definition rho_pi (st : state) : state :=
  map (fun j => let X := (j mod 5)%nat in
                let Y := (j / 5)%nat in
                let src := (((X + 3 * Y) mod 5) + 5 * X)%nat in
                rotl64 (lane st src) (nth src rotation_offsets 0))
      (seq 0 25).

Definition chi (st : state) : state :=
  map (fun i => let x := (i mod 5)%nat in
                let row := (5 * (i / 5))%nat in
                Z.lxor (lane st i)
                  (Z.ldiff (lane st (row + (x + 2) mod 5))
                           (lane st (row + (x + 1) mod 5))))
      (seq 0 25).

Definition iota (rc : Z) (st : state) : state :=
  match st with
  | [] => []
  | a :: rest => Z.lxor a rc :: rest
  end.

Definition round (st : state) (rc : Z) : state :=
  iota rc (chi (rho_pi (theta st))).

Definition keccak_f (st : state) : state :=
  fold_left round round_constants st.

Definition rate_bytes : nat := 136.

Definition byte_val (b : byte) : Z := Z.of_N (Byte.to_N b).

Definition byte_of_Z (z : Z) : byte :=
  match Byte.of_N (Z.to_N (z mod 256)) with
  | Some b => b
  | None => x00
  end.

(** Little-endian reading of (at most) eight bytes as one lane. *)
Fixpoint lane_of_bytes (bs : list byte) : Z :=
  match bs with
  | [] => 0
  | b :: rest => Z.lor (byte_val b) (Z.shiftl (lane_of_bytes rest) 8)
  end.

Fixpoint bytes_of_lane (n : nat) (z : Z) : list byte :=
  match n with
  | O => []
  | S n' => byte_of_Z z :: bytes_of_lane n' (Z.shiftr z 8)
  end.

Fixpoint lanes_of_block (n : nat) (bs : list byte) : list Z :=
  match n with
  | O => []
  | S n' => lane_of_bytes (firstn 8 bs) :: lanes_of_block n' (skipn 8 bs)
  end.

(** Keccak's original multi-rate padding: 0x01, zeros, and 0x80 on the
    last byte of the block (0x81 when a single byte is missing). *)
Definition pad (len : nat) : list byte :=
  let missing := (rate_bytes - len mod rate_bytes)%nat in
  match missing with
  | 1%nat => [x81]
  | _ => x01 :: repeat x00 (missing - 2) ++ [x80]
  end.

Definition absorb_block (st : state) (block : list byte) : state :=
  let ls := lanes_of_block 17 block in
  keccak_f (map (fun i => Z.lxor (lane st i) (nth i ls 0)) (seq 0 25)).

Fixpoint absorb (fuel : nat) (st : state) (bs : list byte) : state :=
  match fuel with
  | O => st
  | S fuel' =>
      match bs with
      | [] => st
      | _ => absorb fuel' (absorb_block st (firstn rate_bytes bs))
               (skipn rate_bytes bs)
      end
  end.

Definition keccak256 (msg : list byte) : list byte :=
  let padded := msg ++ pad (length msg) in
  let st := absorb (S (length padded)) (repeat 0 25) padded in
  flat_map (fun i => bytes_of_lane 8 (lane st i)) (seq 0 4).

End Keccak.

(** ** The Python and library primitives the program relies on *)

Module Py.

(** *** Hexadecimal rendering of bytes *)

Definition hex_digit (n : N) : ascii :=
  match n with
  | 0 => "0" | 1 => "1" | 2 => "2" | 3 => "3" | 4 => "4" | 5 => "5"
  | 6 => "6" | 7 => "7" | 8 => "8" | 9 => "9" | 10 => "a" | 11 => "b"
  | 12 => "c" | 13 => "d" | 14 => "e" | _ => "f"
  end%N%char.

Definition hex_of_byte (b : byte) (rest : string) : string :=
  String (hex_digit (Byte.to_N b / 16)) (String (hex_digit (Byte.to_N b mod 16)) rest).

(** [binascii.hexlify]: two lowercase digits per byte, no padding. *)
Fixpoint hexlify (bs : list byte) : string :=
  match bs with
  | [] => EmptyString
  | b :: rest => hex_of_byte b (hexlify rest)
  end.

(** [Web3.to_hex] on a bytes value. *)
Definition to_hex (bs : list byte) : string := "0x" +:+ hexlify bs.

(** [HexBytes.hex()]: releases of [hexbytes] before 1.0 prefix the digits
    with 0x, later ones do not; the flag says which one is installed. *)
Definition HexBytes_hex (prefixed : bool) (bs : list byte) : string :=
  if prefixed then "0x" +:+ hexlify bs else hexlify bs.

(** *** Integers and strings *)

(** [int.__repr__]: decimal, a minus sign for negatives, no leading zero. *)
Definition int_repr (z : Z) : string := NilZero.string_of_int (Z.to_int z).

(** [a < b] on [str]: lexicographic on code points. *)
Definition str_lt (a b : string) : bool := String.ltb a b.

Definition is_space (c : ascii) : bool :=
  let n := N_of_ascii c in
  ((9 <=? n) && (n <=? 13) || (28 <=? n) && (n <=? 32)
   || (n =? 133) || (n =? 160))%N.

Fixpoint lstrip (s : string) : string :=
  match s with
  | String c rest => if is_space c then lstrip rest else s
  | EmptyString => EmptyString
  end.

Fixpoint rstrip (s : string) : string :=
  match s with
  | EmptyString => EmptyString
  | String c rest =>
      match rstrip rest with
      | EmptyString => if is_space c then EmptyString else String c EmptyString
      | rest' => String c rest'
      end
  end.

(** [str.strip()] *)
Definition strip (s : string) : string := rstrip (lstrip s).

(** [s.startswith(p)] *)
Definition startswith (s p : string) : bool := String.prefix p s.

(** [p in s] on strings. *)
Fixpoint contains (s p : string) : bool :=
  String.prefix p s ||
  match s with
  | EmptyString => false
  | String _ rest => contains rest p
  end.

(** [", ".join(parts)] with an arbitrary separator. *)
Fixpoint join (sep : string) (parts : list string) : string :=
  match parts with
  | [] => EmptyString
  | [p] => p
  | p :: rest => p +:+ sep +:+ join sep rest
  end.

(** *** [sorted] / [list.sort]

    Python's sort is stable and asks only [<] of the keys.  A stable sort
    is determined by its input and the order, so insertion from the right
    (each element goes in front of the first later element that is not
    strictly smaller) stands for it. *)

Section Sort.
Context {A : Type} (lt : A -> A -> bool).

Fixpoint insert (x : A) (l : list A) : list A :=
  match l with
  | [] => [x]
  | y :: rest => if lt y x then y :: insert x rest else x :: y :: rest
  end.

Fixpoint sorted (l : list A) : list A :=
  match l with
  | [] => []
  | x :: rest => insert x (sorted rest)
  end.
End Sort.

(** *** [json.dumps] *)

#[local] Set Warnings "-register-all".

Inductive json : Type :=
| JNull
| JBool (b : bool)
| JInt (z : Z)
| JStr (s : string)
| JList (items : list json)
| JDict (items : list (string * json)).

Definition dquote : ascii := "034"%char.
Definition backslash : ascii := "092"%char.

(** One character under [ensure_ascii=True] (the default): the quote, the
    backslash and the control characters have short escapes, printable
    ASCII stands for itself, everything else is a \u escape. *)
Definition escape_char (c : ascii) : string :=
  let n := N_of_ascii c in
  if (n =? 34)%N then String backslash (String dquote EmptyString)
  else if (n =? 92)%N then String backslash (String backslash EmptyString)
  else if (n =? 10)%N then String backslash "n"
  else if (n =? 13)%N then String backslash "r"
  else if (n =? 9)%N then String backslash "t"
  else if (n =? 8)%N then String backslash "b"
  else if (n =? 12)%N then String backslash "f"
  else if ((32 <=? n) && (n <=? 126))%N then String c EmptyString
  else String backslash
         ("u00" +:+ String (hex_digit (n / 16))
                      (String (hex_digit (n mod 16)) EmptyString)).

Fixpoint escape (s : string) : string :=
  match s with
  | EmptyString => EmptyString
  | String c rest => escape_char c +:+ escape rest
  end.

Definition encode_basestring_ascii (s : string) : string :=
  String dquote (escape s +:+ String dquote EmptyString).

(** [json.dumps(obj, sort_keys=..., separators=(item_sep, key_sep))].
    With [sort_keys] the items of a dictionary are sorted by key; the keys
    of a dictionary are distinct, so the values never take part in a
    comparison and rendering them before the sort changes nothing. *)
Section Dumps.
Variables (sort_keys : bool) (item_sep key_sep : string).

Definition render_items (items : list (string * string)) : list string :=
  map (fun kv => encode_basestring_ascii (fst kv) +:+ key_sep +:+ snd kv)
      (if sort_keys
       then sorted (fun a b => str_lt (fst a) (fst b)) items
       else items).

Fixpoint dumps (j : json) : string :=
  match j with
  | JNull => "null"
  | JBool true => "true"
  | JBool false => "false"
  | JInt z => int_repr z
  | JStr s => encode_basestring_ascii s
  | JList items => "[" +:+ join item_sep (map dumps items) +:+ "]"
  | JDict items =>
      "{" +:+ join item_sep
                (render_items (map (fun kv => (fst kv, dumps (snd kv))) items))
          +:+ "}"
  end.
End Dumps.

(** [str.encode()]: UTF-8 of code points below 256. *)
Definition utf8_char (c : ascii) : list byte :=
  let n := N_of_ascii c in
  if (n <? 128)%N then [byte_of_ascii c]
  else [Keccak.byte_of_Z (Z.of_N (192 + n / 64));
        Keccak.byte_of_Z (Z.of_N (128 + n mod 64))].

Fixpoint encode (s : string) : list byte :=
  match s with
  | EmptyString => []
  | String c rest => utf8_char c ++ encode rest
  end.

End Py.

(** ** Data model *)

(** A log entry as [w3.eth.get_logs] returns it. *)
Record RawLog : Type := mkRawLog {
  raw_blockNumber : Z;
  raw_transactionHash : list byte;
  raw_logIndex : Z;
  raw_data : list byte;
  raw_topics : list (list byte)
}.

(** The dictionary [fetch_logs] appends to [logs] for one entry. *)
Record Log : Type := mkLog {
  blockNumber : Z;
  transactionHash : string;
  logIndex : Z;
  data : string;
  topics : list string
}.

(** The filter handed to [w3.eth.get_logs]. *)
Record FilterParams : Type := mkFilterParams {
  fromBlock : Z;
  toBlock : Z;
  address : string;
  topics_filter : option (list string)
}.

(** [meta]; [elapsedSec], a wall-clock measurement, is left out. *)
Record Meta : Type := mkMeta {
  fromBlockRequested : Z;
  toBlockRequested : Z;
  fromBlockEffective : Z;
  toBlockEffective : Z;
  logCount : Z;
  uniqueTxCount : Z;
  maxLogs : Z;
  topic0Filter : option string;
  commitmentKeccak : string
}.

Record Snapshot : Type := mkSnapshot {
  meta : Meta;
  logs : list Log
}.

(** [payload] of [main]; [generatedAtUtc], a clock reading, is left out. *)
Record Payload : Type := mkPayload {
  mode : string;
  network : string;
  chainId : Z;
  bridgeAddress : string;
  payload_data : Snapshot
}.

(** The namespace [parse_args] returns. *)
Record Args : Type := mkArgs {
  arg_address : string;
  arg_rpc : string;
  arg_from_block : option Z;
  arg_to_block : option Z;
  arg_blocks : Z;
  arg_topic0 : option string;
  arg_max_logs : Z;
  arg_pretty : bool;
  arg_no_human : bool
}.

(** ** Effects *)

(** What the program writes to stderr, one constructor per [print]. *)
Inductive message : Type :=
| MsgPlaceholderKey
| MsgBlocksMustBePositive
| MsgConnectFailed (rpc : string)
| MsgConnected (name : string) (cid tip : Z)
| MsgConnectedNoChainInfo
| MsgFetching (addr : string) (from_block to_block : Z)
| MsgTopic0NotBytes32
| MsgFetchFailed
| MsgRpcReturned (n : nat)
| MsgTruncating (n : nat) (max_logs : Z)
| MsgBanner
| MsgUsingRpc (rpc : string)
| MsgRangeResolved (from_block to_block tip : Z)
| MsgNetworkSummary (name : string) (cid : Z) (bridge : string)
| MsgLogsSummary (m : Meta)
| MsgTotalElapsed
| MsgCommitmentHint.

Inductive event : Type :=
| Stderr (m : message)
| Stdout (pretty : bool) (p : Payload)
| RpcIsConnected (rpc : string)
| RpcChainId
| RpcBlockNumber
| RpcGetLogs (params : FilterParams).

(** An event that reaches the network. *)
Definition is_network_access (e : event) : bool :=
  match e with
  | Stderr _ | Stdout _ _ => false
  | RpcIsConnected _ | RpcChainId | RpcBlockNumber | RpcGetLogs _ => true
  end.

Inductive exception : Type :=
| RpcError
| ValueError (msg : string).

Inductive outcome (A : Type) : Type :=
| Returned (a : A)
| Exited (code : Z)
| Raised (e : exception).

Arguments Returned {A} a.
Arguments Exited {A} code.
Arguments Raised {A} e.

(** The node behind the RPC endpoint and the library facts that are not
    part of this repository.  Every call may change the node (the tip
    advances between two readings); [None] is a call that raises. *)
Record Node (World : Type) : Type := mkNode {
  is_connected : string -> World -> bool * World;
  chain_id : World -> option Z * World;
  block_number : World -> option Z * World;
  get_logs : FilterParams -> World -> option (list RawLog) * World;
  to_checksum_address : string -> option string;
  hexbytes_prefixed : bool
}.

Arguments is_connected {World} _ _ _.
Arguments chain_id {World} _ _.
Arguments block_number {World} _ _.
Arguments get_logs {World} _ _ _.
Arguments to_checksum_address {World} _ _.
Arguments hexbytes_prefixed {World} _.

(** The state a run threads through: the node and the events so far. *)
Record Run (World : Type) : Type := mkRun {
  world : World;
  trace : list event
}.

Arguments mkRun {World} _ _.
Arguments world {World} _.
Arguments trace {World} _.

Definition Prog (World A : Type) : Type := Run World -> outcome A * Run World.

Section Monad.
Context {World : Type}.

Definition ret {A} (a : A) : Prog World A := fun r => (Returned a, r).

Definition bind {A B} (m : Prog World A) (k : A -> Prog World B) : Prog World B :=
  fun r =>
    match m r with
    | (Returned a, r') => k a r'
    | (Exited code, r') => (Exited code, r')
    | (Raised e, r') => (Raised e, r')
    end.

Definition emit (e : event) : Prog World unit :=
  fun r => (Returned tt, mkRun (world r) (trace r ++ [e])).

(** [print(..., file=sys.stderr)] *)
Definition print_err (m : message) : Prog World unit := emit (Stderr m).

(** [sys.exit(code)] *)
Definition sys_exit {A} (code : Z) : Prog World A := fun r => (Exited code, r).

Definition raise {A} (e : exception) : Prog World A := fun r => (Raised e, r).

(** [try: m except Exception: h]; [SystemExit] is not an [Exception]. *)
Definition try_except {A} (m : Prog World A) (h : exception -> Prog World A)
  : Prog World A :=
  fun r =>
    match m r with
    | (Raised e, r') => h e r'
    | res => res
    end.

(** One call to the node: the event is recorded, the node moves on. *)
Definition call {A} (e : event) (f : World -> option A * World) : Prog World A :=
  fun r =>
    let '(res, w') := f (world r) in
    let r' := mkRun w' (trace r ++ [e]) in
    match res with
    | Some a => (Returned a, r')
    | None => (Raised RpcError, r')
    end.
End Monad.

Notation "x <- m ;; k" := (bind m (fun x => k))
  (at level 100, m at next level, right associativity).
Notation "m ;;; k" := (bind m (fun _ => k))
  (at level 100, k at level 200, right associativity).

(** ** The program *)

Definition NETWORKS : gmap Z string :=
  list_to_map
    [ (1, "Ethereum Mainnet"); (11155111, "Sepolia Testnet"); (10, "Optimism");
      (137, "Polygon"); (42161, "Arbitrum One"); (8453, "Base") ].

Definition network_name (cid : Z) : string :=
  default ("Unknown (chain ID " +:+ Py.int_repr cid +:+ ")") (NETWORKS !! cid).

(** *** The pure steps of [fetch_logs] *)

(** Lines 126-131: the slice [logs_raw[:max_logs]], taken only when the
    limit is positive and exceeded. *)
Definition truncates (max_logs : Z) (logs_raw : list RawLog) : bool :=
  (max_logs >? 0) && (Z.of_nat (length logs_raw) >? max_logs).

Definition truncate (max_logs : Z) (logs_raw : list RawLog) : list RawLog :=
  if truncates max_logs logs_raw
  then firstn (Z.to_nat max_logs) logs_raw
  else logs_raw.

(** Lines 139-143 and 151-159: the dictionary built for one entry. *)
Definition normalize (lg : RawLog) : Log :=
  {| blockNumber := raw_blockNumber lg;
     transactionHash := Py.to_hex (raw_transactionHash lg);
     logIndex := raw_logIndex lg;
     data := Py.to_hex (raw_data lg);
     topics := map Py.to_hex (raw_topics lg) |}.

(** The variables the loop of lines 133-159 updates. *)
Record Scan : Type := mkScan {
  scan_logs : list Log;
  tx_set : gset string;
  min_block_seen : option Z;
  max_block_seen : option Z
}.

Definition scan_start : Scan :=
  {| scan_logs := []; tx_set := ∅; min_block_seen := None; max_block_seen := None |}.

(** One iteration of [for lg in logs_raw]. *)
Definition scan_step (s : Scan) (lg : RawLog) : Scan :=
  let rec := normalize lg in
  let bn := blockNumber rec in
  {| scan_logs := scan_logs s ++ [rec];
     tx_set := {[ transactionHash rec ]} ∪ tx_set s;
     min_block_seen :=
       match min_block_seen s with
       | None => Some bn
       | Some m => if bn <? m then Some bn else Some m
       end;
     max_block_seen :=
       match max_block_seen s with
       | None => Some bn
       | Some m => if bn >? m then Some bn else Some m
       end |}.

Definition scan (logs_raw : list RawLog) : Scan :=
  fold_left scan_step logs_raw scan_start.

(** Line 161: the sort key, and [<] on such tuples (the first component
    that differs decides). *)
Definition sort_key (x : Log) : Z * string * Z :=
  (blockNumber x, transactionHash x, logIndex x).

Definition key_lt (a b : Z * string * Z) : bool :=
  let '(bn1, tx1, ix1) := a in
  let '(bn2, tx2, ix2) := b in
  if negb (bn1 =? bn2) then bn1 <? bn2
  else if negb (String.eqb tx1 tx2) then Py.str_lt tx1 tx2
  else ix1 <? ix2.

Definition log_lt (x y : Log) : bool := key_lt (sort_key x) (sort_key y).

Definition sort_logs (l : list Log) : list Log := Py.sorted log_lt l.

(** The dictionary of one entry as [json.dumps] sees it, keys in the order
    of the dictionary display of lines 152-158. *)
Definition log_to_json (x : Log) : Py.json :=
  Py.JDict
    [ ("blockNumber", Py.JInt (blockNumber x));
      ("transactionHash", Py.JStr (transactionHash x));
      ("logIndex", Py.JInt (logIndex x));
      ("data", Py.JStr (data x));
      ("topics", Py.JList (map Py.JStr (topics x))) ].

(** Line 163. *)
Definition encoded (l : list Log) : list byte :=
  Py.encode (Py.dumps true "," ":" (Py.JList (map log_to_json l))).

(** Line 164. *)
Definition commitment (prefixed : bool) (l : list Log) : string :=
  Py.HexBytes_hex prefixed (Keccak.keccak256 (encoded l)).

(** Lines 133-182, for the bounds and the retained entries at hand. *)
Definition snapshot_of (prefixed : bool) (from_block to_block : Z)
    (topic0 : option string) (max_logs : Z) (retained : list RawLog) : Snapshot :=
  let s := scan retained in
  let sorted_logs := sort_logs (scan_logs s) in
  {| meta :=
       {| fromBlockRequested := from_block;
          toBlockRequested := to_block;
          fromBlockEffective := default from_block (min_block_seen s);
          toBlockEffective := default to_block (max_block_seen s);
          logCount := Z.of_nat (length sorted_logs);
          uniqueTxCount := Z.of_nat (size (tx_set s));
          maxLogs := max_logs;
          topic0Filter := topic0;
          commitmentKeccak := commitment prefixed sorted_logs |};
     logs := sorted_logs |}.

(** Lines 255-262 of [main]: the block range from the two optional bounds,
    the width and the tip. *)
Definition resolve_range (from_block to_block : option Z) (blocks tip : Z) : Z * Z :=
  match from_block, to_block with
  | None, None => (Z.max 0 (tip - blocks + 1), tip)
  | _, _ =>
      let to_block' := default tip to_block in
      let from_block' := default (Z.max 0 (to_block' - blocks + 1)) from_block in
      (from_block', to_block')
  end.

(** Lines 89-94 of [fetch_logs]: an inverted pair is swapped, then the upper
    bound is cut at the tip just read. *)
Definition swap_inverted (from_block to_block : Z) : Z * Z :=
  if from_block >? to_block then (to_block, from_block) else (from_block, to_block).

Definition clamp_range (from_block to_block latest : Z) : Z * Z :=
  let '(f, t) := swap_inverted from_block to_block in (f, Z.min t latest).

(** The value of [topics] after lines 101-106: set only for a non-empty
    [topic0], to the stripped string. *)
Definition topic0_list (topic0 : option string) : option (list string) :=
  match topic0 with
  | None | Some EmptyString => None
  | Some t => Some [Py.strip t]
  end.

Section Program.
Context {World : Type} (node : Node World).

Definition normalize_address (addr : string) : Prog World string :=
  match to_checksum_address node (Py.strip addr) with
  | Some a => ret a
  | None => raise (ValueError addr)
  end.

Definition connect (rpc : string) : Prog World unit :=
  up <- call (RpcIsConnected rpc)
          (fun w => let '(b, w') := is_connected node rpc w in (Some b, w')) ;;
  if negb up then
    print_err (MsgConnectFailed rpc) ;;; sys_exit 1
  else
    try_except
      (cid <- call RpcChainId (chain_id node) ;;
       tip <- call RpcBlockNumber (block_number node) ;;
       print_err (MsgConnected (network_name cid) cid tip))
      (fun _ => print_err MsgConnectedNoChainInfo).

(** Lines 101-114: the topic filter of the request; [topic0_list] is the
    list it ends up with. *)
Definition topic_filter (topic0 : option string) : Prog World (option (list string)) :=
  match topic0 with
  | None | Some EmptyString => ret None
  | Some t =>
      let t0 := Py.strip t in
      (if negb (Py.startswith t0 "0x") || negb (String.length t0 =? 66)%nat
       then print_err MsgTopic0NotBytes32 else ret tt) ;;;
      ret (Some [t0])
  end.

Definition fetch_logs (addr_arg : string) (from_block to_block : Z)
    (topic0 : option string) (max_logs : Z) : Prog World Snapshot :=
  let '(from_block, to_block) := swap_inverted from_block to_block in
  addr <- normalize_address addr_arg ;;
  latest <- call RpcBlockNumber (block_number node) ;;
  let to_block := Z.min to_block latest in
  print_err (MsgFetching addr from_block to_block) ;;;
  tf <- topic_filter topic0 ;;
  let params :=
    {| fromBlock := from_block; toBlock := to_block; address := addr;
       topics_filter := tf |} in
  logs_raw <- try_except (call (RpcGetLogs params) (get_logs node params))
                (fun _ => print_err MsgFetchFailed ;;; sys_exit 1) ;;
  print_err (MsgRpcReturned (length logs_raw)) ;;;
  (if truncates max_logs logs_raw
   then print_err (MsgTruncating (length logs_raw) max_logs)
   else ret tt) ;;;
  ret (snapshot_of (hexbytes_prefixed node) from_block to_block topic0 max_logs
         (truncate max_logs logs_raw)).

(** [main], from the parsed arguments on. *)
Definition main (DEFAULT_RPC : string) (args : Args) : Prog World unit :=
  (if Py.contains DEFAULT_RPC "your_api_key"
   then print_err MsgPlaceholderKey else ret tt) ;;;
  if arg_blocks args <=? 0 then
    print_err MsgBlocksMustBePositive ;;; sys_exit 1
  else
    connect (arg_rpc args) ;;;
    tip <- call RpcBlockNumber (block_number node) ;;
    let '(from_block, to_block) :=
      resolve_range (arg_from_block args) (arg_to_block args) (arg_blocks args) tip in
    print_err MsgBanner ;;;
    print_err (MsgUsingRpc (arg_rpc args)) ;;;
    print_err (MsgRangeResolved from_block to_block tip) ;;;
    snapshot <- fetch_logs (arg_address args) from_block to_block
                  (arg_topic0 args) (arg_max_logs args) ;;
    cid <- call RpcChainId (chain_id node) ;;
    bridge <- normalize_address (arg_address args) ;;
    let payload :=
      {| mode := "zk_bridge_events_snapshot"; network := network_name cid;
         chainId := cid; bridgeAddress := bridge; payload_data := snapshot |} in
    (if negb (arg_no_human args) then
       print_err (MsgNetworkSummary (network payload) (chainId payload)
                    (bridgeAddress payload)) ;;;
       print_err (MsgLogsSummary (meta snapshot)) ;;;
       print_err MsgTotalElapsed ;;;
       print_err MsgCommitmentHint
     else ret tt) ;;;
    emit (Stdout (arg_pretty args) payload).

(** A run starts with an empty trace. *)
Definition start (w : World) : Run World := mkRun w [].
End Program.

(** ** The specification's words, for comparison with the code *)

(** Section 4.5: one record as a fixed-field structure, keys in
    lexicographic order, integers in decimal, the hex strings as they are
    between quotes, and the separators alone between the parts. *)
Definition quoted (s : string) : string :=
  String Py.dquote (s +:+ String Py.dquote EmptyString).

Definition canonical_keys : list string :=
  ["blockNumber"; "data"; "logIndex"; "topics"; "transactionHash"].

Definition canonical_record (x : Log) : string :=
  "{" +:+ quoted "blockNumber" +:+ ":" +:+ Py.int_repr (blockNumber x)
  +:+ "," +:+ quoted "data" +:+ ":" +:+ quoted (data x)
  +:+ "," +:+ quoted "logIndex" +:+ ":" +:+ Py.int_repr (logIndex x)
  +:+ "," +:+ quoted "topics" +:+ ":"
  +:+ ("[" +:+ Py.join "," (map quoted (topics x)) +:+ "]")
  +:+ "," +:+ quoted "transactionHash" +:+ ":" +:+ quoted (transactionHash x)
  +:+ "}".

Definition canonical_encoding (l : list Log) : string :=
  "[" +:+ Py.join "," (map canonical_record l) +:+ "]".

(** Section 4.4: the composite key order, block number first, then the
    transaction hash, then the log index. *)
Definition key_le (x y : Log) : Prop :=
  blockNumber x < blockNumber y
  \/ (blockNumber x = blockNumber y
      /\ (Py.str_lt (transactionHash x) (transactionHash y) = true
          \/ (transactionHash x = transactionHash y /\ logIndex x <= logIndex y))).

(** A lowercase hex string as section 4.2 has it: 0x and then digits. *)
Definition is_lower_hex_char (c : ascii) : bool :=
  let n := N_of_ascii c in
  ((48 <=? n) && (n <=? 57) || (97 <=? n) && (n <=? 102))%N.

Fixpoint all_chars (p : ascii -> bool) (s : string) : bool :=
  match s with
  | EmptyString => true
  | String c rest => p c && all_chars p rest
  end.

Definition is_normalized_hex (s : string) : bool :=
  match s with
  | String c0 (String c1 rest) =>
      Ascii.eqb c0 "0" && Ascii.eqb c1 "x" && all_chars is_lower_hex_char rest
  | _ => false
  end.

(** The characters of a normalized hex string: the digits and the x. *)
Definition is_hex_string_char (c : ascii) : bool :=
  is_lower_hex_char c || Ascii.eqb c "x".

(** In a sort by [lt], [x] may stand before [y]. *)
Definition may_precede {A : Type} (lt : A -> A -> bool) (x y : A) : Prop :=
  lt y x = false.

(** A record whose byte-like fields are normalized hex strings. *)
Definition is_normalized (x : Log) : Prop :=
  is_normalized_hex (transactionHash x) = true
  /\ is_normalized_hex (data x) = true
  /\ Forall (fun t => is_normalized_hex t = true) (topics x).

(** Section 3: the least and the greatest block number of a sequence. *)
Definition is_min_of (m : Z) (l : list Z) : Prop :=
  In m l /\ Forall (fun b => m <= b) l.

Definition is_max_of (m : Z) (l : list Z) : Prop :=
  In m l /\ Forall (fun b => b <= m) l.

(** Section 3: the number of distinct transaction hashes of a sequence. *)
Definition distinct_tx_count (l : list Log) : nat :=
  length (remove_dups (map transactionHash l)).

(** Section 4.3: what is kept of the batch as received. *)
Definition retained_spec (max_logs : Z) (received : list RawLog) : list RawLog :=
  if decide (max_logs > 0 /\ Z.of_nat (length received) > max_logs)
  then firstn (Z.to_nat max_logs) received
  else received.

(** Section 4.5: a character that is not whitespace, and the characters of
    a decimal numeral. *)
Definition not_space (c : ascii) : bool := negb (Py.is_space c).

Definition is_decimal_char (c : ascii) : bool :=
  let n := N_of_ascii c in ((48 <=? n) && (n <=? 57) || (n =? 45))%N.

(** The filter [fetch_logs] sends for a checked address, the bounds it was
    given, the tip it read and the topic. *)
Definition request_of (addr : string) (from_block to_block latest : Z)
    (topic0 : option string) : FilterParams :=
  {| fromBlock := fst (clamp_range from_block to_block latest);
     toBlock := snd (clamp_range from_block to_block latest);
     address := addr;
     topics_filter := topic0_list topic0 |}.

(** Two records with the same full key triple. *)
Definition same_key (x y : Log) : bool :=
  (blockNumber x =? blockNumber y)
  && String.eqb (transactionHash x) (transactionHash y)
  && (logIndex x =? logIndex y).

#[global] Instance Log_eq_dec : EqDecision Log.
Proof. solve_decision. Defined.

Definition is_stdout (e : event) : bool :=
  match e with
  | Stdout _ _ => true
  | _ => false
  end.

(** Section 4.4: entries that share the full key triple, and a batch in
    which the key triple tells the entries apart. *)
Definition same_raw_key (x y : RawLog) : Prop :=
  raw_blockNumber x = raw_blockNumber y
  /\ raw_transactionHash x = raw_transactionHash y
  /\ raw_logIndex x = raw_logIndex y.

Definition key_determines_entry (batch : list RawLog) : Prop :=
  forall x y, In x batch -> In y batch -> same_raw_key x y -> x = y.

(** Section 3: the log index is unique within a transaction, so the
    transaction hash and the log index tell the entries of a batch apart. *)
Definition log_index_unique_within_tx (batch : list RawLog) : Prop :=
  forall x y, In x batch -> In y batch ->
    raw_transactionHash x = raw_transactionHash y ->
    raw_logIndex x = raw_logIndex y -> x = y.

(** The arguments of a run with a window of no block. *)
Definition zero_blocks_args : Args :=
  {| arg_address := "0xabc"; arg_rpc := "http://localhost:8545";
     arg_from_block := None; arg_to_block := None; arg_blocks := 0;
     arg_topic0 := None; arg_max_logs := 5000;
     arg_pretty := false; arg_no_human := false |}.

(** A node that answers every call the same way, for concrete runs. *)
Definition fixed_node (tip : Z) (answer : option (list RawLog)) : Node unit :=
  {| is_connected := fun _ w => (true, w);
     chain_id := fun w => (Some 1, w);
     block_number := fun w => (Some tip, w);
     get_logs := fun _ w => (answer, w);
     to_checksum_address := fun s => Some s;
     hexbytes_prefixed := false |}.

(** A node that answers with one batch or another, by its state: the same
    logs can come back in a different order from one call to the next. *)
Definition replaying_node (tip : Z) (first second : list RawLog) : Node bool :=
  {| is_connected := fun _ w => (true, w);
     chain_id := fun w => (Some 1, w);
     block_number := fun w => (Some tip, w);
     get_logs := fun _ (w : bool) => (Some (if w then first else second), w);
     to_checksum_address := fun s => Some s;
     hexbytes_prefixed := false |}.

(** A contract address in checksum form, which the address check returns
    as it is. *)
Definition deposit_contract : string :=
  "0x00000000219ab540356cBB839Cbe05303d7705Fa".

(** One entry of block 1000, for a node whose tip is below it. *)
Definition late_batch : list RawLog :=
  [ mkRawLog 1000 [xcc; xcc] 0 [] [] ].

(** Three entries A, B, C of three blocks, in two arrival orders. *)
Definition arrival_abc : list RawLog :=
  [ mkRawLog 101 [xaa; xaa] 0 [x01] [[x0f]];
    mkRawLog 102 [xbb; xbb] 0 [x02] [];
    mkRawLog 103 [xcc; xcc] 0 [x03] [[xff]] ].

Definition arrival_cba : list RawLog := rev arrival_abc.

(** The value of a hex digit, to read [Py.hex_digit] back. *)
Definition hex_val (c : ascii) : N :=
  let n := N_of_ascii c in
  if N.ltb n 58 then N.sub n 48 else N.sub n 87.

(** A small batch: three entries of two transactions, out of key order. *)
Definition demo_batch : list RawLog :=
  [ mkRawLog 100 [xaa; xaa] 1 [x01] [[x0f]];
    mkRawLog 99 [xbb; xbb] 0 [] [];
    mkRawLog 100 [xaa; xaa] 0 [x02] [[x0f]; [xff]] ].

(** ** Vocabulary for the further properties *)

(** Whether lines 103-105 print the warning about [topic0]. *)
Definition topic0_warns (topic0 : option string) : bool :=
  match topic0 with
  | None | Some EmptyString => false
  | Some t =>
      negb (Py.startswith (Py.strip t) "0x")
      || negb (String.length (Py.strip t) =? 66)%nat
  end.

(** What a successful call of [fetch_logs] adds to the trace. *)
Definition fetch_logs_events (a : string) (from_block to_block latest : Z)
    (topic0 : option string) (max_logs : Z) (received : list RawLog) : list event :=
  [ RpcBlockNumber;
    Stderr (MsgFetching a (fst (clamp_range from_block to_block latest))
              (snd (clamp_range from_block to_block latest))) ]
  ++ (if topic0_warns topic0 then [Stderr MsgTopic0NotBytes32] else [])
  ++ [ RpcGetLogs (request_of a from_block to_block latest topic0);
       Stderr (MsgRpcReturned (length received)) ]
  ++ (if truncates max_logs received
      then [Stderr (MsgTruncating (length received) max_logs)] else []).

(** The run after the first statement of [main], the warning about the
    placeholder key. *)
Definition after_key_warning {World : Type} (DEFAULT_RPC : string) (r : Run World)
  : Run World :=
  mkRun (world r)
    (trace r ++ (if Py.contains DEFAULT_RPC "your_api_key"
                 then [Stderr MsgPlaceholderKey] else [])).

(** A program that only ever adds to the trace, and only events in [Q]. *)
Definition grows {World A : Type} (Q : event -> Prop) (m : Prog World A) : Prop :=
  forall r o r', m r = (o, r') ->
    exists tr, trace r' = trace r ++ tr /\ Forall Q tr.

(** A program that adds events in [Q] and, when it returns, one last event
    in [L]. *)
Definition finishes {World A : Type} (Q L : event -> Prop) (m : Prog World A) : Prop :=
  forall r o r', m r = (o, r') ->
    exists tr, trace r' = trace r ++ tr
      /\ match o with
         | Returned _ => exists tr0 e, tr = tr0 ++ [e] /\ Forall Q tr0 /\ L e
         | _ => Forall Q tr
         end.

(** A node described by its answers, the same at every call. *)
Definition scripted_node (up : bool) (cid tip : option Z)
    (answer : option (list RawLog)) (valid : string -> option string) : Node unit :=
  {| is_connected := fun _ w => (up, w);
     chain_id := fun w => (cid, w);
     block_number := fun w => (tip, w);
     get_logs := fun _ w => (answer, w);
     to_checksum_address := valid;
     hexbytes_prefixed := false |}.

(** Arguments for a run over the default window. *)
Definition demo_args : Args :=
  {| arg_address := " 0xabc "; arg_rpc := "http://localhost:8545";
     arg_from_block := None; arg_to_block := None; arg_blocks := 2000;
     arg_topic0 := None; arg_max_logs := 2;
     arg_pretty := false; arg_no_human := true |}.

(** * Properties *)

(** ** The sort *)

Section SortFacts.
Context {A : Type} (lt : A -> A -> bool).

Lemma insert_perm (x : A) (l : list A) : Permutation (Py.insert lt x l) (x :: l).
Proof.
  induction l as [|y l IH]; simpl; [reflexivity|].
  destruct (lt y x); [|reflexivity].
  rewrite IH. apply perm_swap.
Qed.

Lemma sorted_perm (l : list A) : Permutation (Py.sorted lt l) l.
Proof.
  induction l as [|x l IH]; simpl; [reflexivity|].
  rewrite insert_perm. now apply perm_skip.
Qed.

Lemma sorted_length (l : list A) : length (Py.sorted lt l) = length l.
Proof. apply Permutation_length, sorted_perm. Qed.

Hypothesis lt_asym : forall x y, lt x y = true -> lt y x = false.
Hypothesis precede_trans :
  forall x y z, may_precede lt x y -> may_precede lt y z -> may_precede lt x z.

Lemma insert_strongly_sorted (x : A) (l : list A) :
  StronglySorted (may_precede lt) l -> StronglySorted (may_precede lt) (Py.insert lt x l).
Proof.
  induction 1 as [|y l Hl IH Hy]; simpl.
  - constructor; [constructor | constructor].
  - destruct (lt y x) eqn:E.
    + constructor; [exact IH|].
      rewrite List.Forall_forall. intros z Hz.
      apply (Permutation_in _ (insert_perm x l)) in Hz.
      destruct Hz as [<- | Hz].
      * apply lt_asym, E.
      * rewrite List.Forall_forall in Hy. now apply Hy.
    + constructor; [now constructor|].
      constructor; [exact E|].
      rewrite List.Forall_forall in Hy |- *. intros z Hz.
      apply precede_trans with y; [exact E | now apply Hy].
Qed.

Lemma sorted_strongly_sorted (l : list A) :
  StronglySorted (may_precede lt) (Py.sorted lt l).
Proof.
  induction l as [|x l IH]; simpl; [constructor|].
  now apply insert_strongly_sorted.
Qed.

(** Stability: inserting [x] leaves the elements of a class [p] in their
    order, when no member of the class is strictly below another. *)
Lemma insert_filter (p : A -> bool) (x : A) (l : list A) :
  (forall y, In y l -> p x = true -> p y = true -> lt y x = false) ->
  List.filter p (Py.insert lt x l) = List.filter p (x :: l).
Proof.
  induction l as [|y l IH]; intros H; [reflexivity|].
  cbn [Py.insert]. destruct (lt y x) eqn:E; [|reflexivity].
  cbn [List.filter]. rewrite IH by (intros z Hz; apply H; now right).
  cbn [List.filter].
  destruct (p y) eqn:Hy; [|reflexivity].
  destruct (p x) eqn:Hx; [|reflexivity].
  rewrite (H y (or_introl eq_refl) eq_refl Hy) in E. discriminate.
Qed.

Lemma sorted_filter (p : A -> bool) (l : list A) :
  (forall x y, p x = true -> p y = true -> lt y x = false) ->
  List.filter p (Py.sorted lt l) = List.filter p l.
Proof.
  intros H. induction l as [|x l IH]; [reflexivity|].
  cbn [Py.sorted]. rewrite insert_filter by (intros; now apply H).
  cbn [List.filter]. now rewrite IH.
Qed.

(** Two sorted arrangements of the same elements coincide, as soon as
    two elements that may stand in either order are equal. *)
Lemma strongly_sorted_unique (l1 l2 : list A) :
  (forall x y, In x l1 -> In y l1 -> may_precede lt x y -> may_precede lt y x -> x = y) ->
  StronglySorted (may_precede lt) l1 -> StronglySorted (may_precede lt) l2 ->
  Permutation l1 l2 -> l1 = l2.
Proof.
  revert l2. induction l1 as [|a l1 IH]; intros l2 Hanti H1 H2 HP.
  - now apply Permutation_nil in HP.
  - destruct l2 as [|b l2]; [now apply Permutation_sym, Permutation_nil in HP|].
    apply StronglySorted_inv in H1 as [H1 Ha].
    apply StronglySorted_inv in H2 as [H2 Hb].
    rewrite List.Forall_forall in Ha, Hb.
    assert (a = b) as ->.
    { assert (In b (a :: l1)) as Hin1
        by (apply (Permutation_in _ (Permutation_sym HP)); now left).
      assert (In a (b :: l2)) as Hin2
        by (apply (Permutation_in _ HP); now left).
      destruct Hin1 as [->|Hin1]; [reflexivity|].
      destruct Hin2 as [->|Hin2]; [reflexivity|].
      apply Hanti; [now left | now right | now apply Ha | now apply Hb]. }
    f_equal. apply IH; auto.
    + intros x y Hx Hy. apply Hanti; now right.
    + now apply Permutation_cons_inv in HP.
Qed.

Lemma sorted_perm_eq (l1 l2 : list A) :
  (forall x y, In x l1 -> In y l1 -> may_precede lt x y -> may_precede lt y x -> x = y) ->
  Permutation l1 l2 -> Py.sorted lt l1 = Py.sorted lt l2.
Proof.
  intros Hanti HP. apply strongly_sorted_unique.
  - intros x y Hx Hy. apply Hanti; eapply Permutation_in; eauto using sorted_perm.
  - apply sorted_strongly_sorted.
  - apply sorted_strongly_sorted.
  - rewrite !sorted_perm. exact HP.
Qed.
End SortFacts.

(** ** The order on sort keys *)

Lemma str_compare_refl (a : string) : String.compare a a = Eq.
Proof.
  induction a as [|c a IH]; [reflexivity|].
  simpl. unfold Ascii.compare. now rewrite N.compare_refl.
Qed.

Lemma str_compare_lt_trans (a b c : string) :
  String.compare a b = Lt -> String.compare b c = Lt -> String.compare a c = Lt.
Proof.
  revert b c. induction a as [|x a IH]; intros [|y b] [|z c]; simpl;
    try discriminate; try reflexivity.
  unfold Ascii.compare.
  destruct (N.compare_spec (N_of_ascii x) (N_of_ascii y)) as [Exy|Lxy|Gxy];
    try discriminate;
    destruct (N.compare_spec (N_of_ascii y) (N_of_ascii z)) as [Eyz|Lyz|Gyz];
    try discriminate; intros Hab Hbc.
  - rewrite Exy, Eyz, N.compare_refl. now apply IH with b.
  - rewrite Exy. now apply N.compare_lt_iff in Lyz as ->.
  - rewrite <- Eyz. now apply N.compare_lt_iff in Lxy as ->.
  - assert (N_of_ascii x < N_of_ascii z)%N as H by lia.
    now apply N.compare_lt_iff in H as ->.
Qed.

Lemma str_lt_irrefl (a : string) : Py.str_lt a a = false.
Proof. unfold Py.str_lt, String.ltb. now rewrite str_compare_refl. Qed.

Lemma str_lt_asym (a b : string) : Py.str_lt a b = true -> Py.str_lt b a = false.
Proof.
  unfold Py.str_lt, String.ltb. rewrite (String.compare_antisym b a).
  now destruct (String.compare a b).
Qed.

Lemma str_lt_trans (a b c : string) :
  Py.str_lt a b = true -> Py.str_lt b c = true -> Py.str_lt a c = true.
Proof.
  unfold Py.str_lt, String.ltb. intros Hab Hbc.
  rewrite (str_compare_lt_trans a b c); [reflexivity| |].
  - now destruct (String.compare a b).
  - now destruct (String.compare b c).
Qed.

Lemma str_lt_trichotomy (a b : string) :
  Py.str_lt a b = true \/ a = b \/ Py.str_lt b a = true.
Proof.
  unfold Py.str_lt, String.ltb. rewrite (String.compare_antisym b a).
  destruct (String.compare a b) eqn:E; simpl; auto.
  right; left. now apply String.compare_eq_iff.
Qed.

(** [<] on the key tuples, spelled out. *)
Lemma log_lt_spec (x y : Log) :
  log_lt x y = true <->
  blockNumber x < blockNumber y
  \/ (blockNumber x = blockNumber y
      /\ (Py.str_lt (transactionHash x) (transactionHash y) = true
          \/ (transactionHash x = transactionHash y /\ logIndex x < logIndex y))).
Proof.
  unfold log_lt, sort_key, key_lt.
  destruct (Z.eqb_spec (blockNumber x) (blockNumber y)) as [Eb|Nb]; cbn [negb].
  - destruct (String.eqb_spec (transactionHash x) (transactionHash y)) as [Et|Nt];
      cbn [negb].
    + rewrite Z.ltb_lt, Et, str_lt_irrefl. split.
      * intros H. right; split; [exact Eb|]. right; split; [reflexivity | exact H].
      * intros [H|[_ [H|[_ H]]]]; [lia | discriminate | exact H].
    + split; [intros; right; split; auto|].
      intros [?|[_ [?|[? _]]]]; [lia | assumption | contradiction].
  - rewrite Z.ltb_lt. split; [auto|]. intros [?|[? _]]; [assumption | contradiction].
Qed.

Lemma log_lt_asym (x y : Log) : log_lt x y = true -> log_lt y x = false.
Proof.
  intros H. apply not_true_is_false. intros H'.
  apply log_lt_spec in H, H'.
  destruct H as [H|[Eb [H|[Et H]]]], H' as [H'|[Eb' [H'|[Et' H']]]]; try lia.
  - apply str_lt_asym in H. congruence.
  - rewrite Et', str_lt_irrefl in H. discriminate.
  - rewrite Et, str_lt_irrefl in H'. discriminate.
Qed.

(** The code's sort order is the specification's composite key order. *)
Lemma may_precede_key_le (x y : Log) : may_precede log_lt x y <-> key_le x y.
Proof.
  unfold may_precede, key_le. rewrite <- not_true_iff_false, log_lt_spec.
  split.
  - intros H.
    destruct (Z.lt_trichotomy (blockNumber x) (blockNumber y)) as [?|[Eb|?]];
      [now left | | exfalso; apply H; now left].
    right; split; [exact Eb|].
    destruct (str_lt_trichotomy (transactionHash x) (transactionHash y))
      as [?|[Et|?]]; [now left | | exfalso; apply H; right; auto].
    right; split; [exact Et|].
    destruct (Z.le_gt_cases (logIndex x) (logIndex y)); [assumption|].
    exfalso; apply H. right; split; [auto|]. right; split; [auto | lia].
  - intros [H|[Eb [H|[Et H]]]] [H'|[Eb' [H'|[Et' H']]]]; try lia.
    + apply str_lt_asym in H. congruence.
    + rewrite Et', str_lt_irrefl in H. discriminate.
    + rewrite Et, str_lt_irrefl in H'. discriminate.
Qed.

Lemma key_le_trans (x y z : Log) : key_le x y -> key_le y z -> key_le x z.
Proof.
  unfold key_le.
  intros [H|[Eb [H|[Et H]]]] [H'|[Eb' [H'|[Et' H']]]]; try (left; lia);
    right; (split; [lia|]).
  - left. now apply str_lt_trans with (transactionHash y).
  - left. now rewrite <- Et'.
  - left. now rewrite Et.
  - right. split; [congruence | lia].
Qed.

Lemma may_precede_trans (x y z : Log) :
  may_precede log_lt x y -> may_precede log_lt y z -> may_precede log_lt x z.
Proof. rewrite !may_precede_key_le. apply key_le_trans. Qed.

(** Two records that may stand in either order have the same key. *)
Lemma may_precede_both (x y : Log) :
  may_precede log_lt x y -> may_precede log_lt y x -> sort_key x = sort_key y.
Proof.
  rewrite !may_precede_key_le. unfold key_le, sort_key.
  intros [H|[Eb [H|[Et H]]]] [H'|[Eb' [H'|[Et' H']]]]; try lia.
  - apply str_lt_asym in H. congruence.
  - rewrite Et', str_lt_irrefl in H. discriminate.
  - rewrite Et, str_lt_irrefl in H'. discriminate.
  - f_equal; [f_equal; assumption | lia].
Qed.

Lemma same_key_not_lt (x y : Log) : sort_key x = sort_key y -> log_lt x y = false.
Proof.
  intros E. apply not_true_is_false. rewrite log_lt_spec.
  unfold sort_key in E. injection E as Eb Et Ei.
  intros [?|[_ [H|[_ ?]]]]; try lia.
  rewrite Et, str_lt_irrefl in H. discriminate.
Qed.

(** ** The loop of [fetch_logs] *)

Lemma scan_snoc (l : list RawLog) (lg : RawLog) :
  scan (l ++ [lg]) = scan_step (scan l) lg.
Proof. unfold scan. now rewrite fold_left_app. Qed.

Lemma scan_logs_map (l : list RawLog) : scan_logs (scan l) = map normalize l.
Proof.
  induction l as [|lg l IH] using rev_ind; [reflexivity|].
  rewrite scan_snoc, map_app. cbn. now rewrite IH.
Qed.

Lemma scan_tx_set (l : list RawLog) :
  tx_set (scan l) = list_to_set (map transactionHash (map normalize l)).
Proof.
  induction l as [|lg l IH] using rev_ind; [reflexivity|].
  rewrite scan_snoc, !map_app. cbn [map].
  rewrite list_to_set_snoc_L. cbn [scan_step tx_set].
  rewrite IH. apply (comm_L union).
Qed.

Lemma scan_min_block (l : list RawLog) :
  match min_block_seen (scan l) with
  | None => l = []
  | Some m => is_min_of m (map raw_blockNumber l)
  end.
Proof.
  induction l as [|lg l IH] using rev_ind; [reflexivity|].
  rewrite scan_snoc, map_app. cbn [scan_step min_block_seen normalize blockNumber map].
  unfold is_min_of in *.
  destruct (min_block_seen (scan l)) as [m|].
  - destruct IH as [Hin Hall].
    destruct (Z.ltb_spec (raw_blockNumber lg) m); split.
    + apply in_or_app. right. now left.
    + apply Forall_app. split; [|repeat constructor; lia].
      eapply List.Forall_impl; [|exact Hall]. cbn. intros. lia.
    + apply in_or_app. now left.
    + apply Forall_app. split; [exact Hall|]. repeat constructor. lia.
  - subst l. split; [now left | repeat constructor; lia].
Qed.

Lemma scan_max_block (l : list RawLog) :
  match max_block_seen (scan l) with
  | None => l = []
  | Some m => is_max_of m (map raw_blockNumber l)
  end.
Proof.
  induction l as [|lg l IH] using rev_ind; [reflexivity|].
  rewrite scan_snoc, map_app. cbn [scan_step max_block_seen normalize blockNumber map].
  unfold is_max_of in *.
  destruct (max_block_seen (scan l)) as [m|].
  - destruct IH as [Hin Hall].
    destruct (Z.gtb_spec (raw_blockNumber lg) m); split.
    + apply in_or_app. right. now left.
    + apply Forall_app. split; [|repeat constructor; lia].
      eapply List.Forall_impl; [|exact Hall]. cbn. intros. lia.
    + apply in_or_app. now left.
    + apply Forall_app. split; [exact Hall|]. repeat constructor. lia.
  - subst l. split; [now left | repeat constructor; lia].
Qed.

Lemma size_list_to_set_distinct (l : list string) :
  size (list_to_set l : gset string) = length (remove_dups l).
Proof.
  rewrite <- (size_list_to_set (C := gset string) (remove_dups l))
    by apply NoDup_remove_dups.
  f_equal. apply set_eq. intros x.
  now rewrite !elem_of_list_to_set, elem_of_remove_dups.
Qed.

(** The slice of the code is the retained part of section 4.3. *)
Lemma truncate_retained_spec (max_logs : Z) (l : list RawLog) :
  truncate max_logs l = retained_spec max_logs l.
Proof.
  unfold truncate, truncates, retained_spec.
  destruct (Z.gtb_spec max_logs 0), (Z.gtb_spec (Z.of_nat (length l)) max_logs);
    cbn [andb]; case_decide; try reflexivity; lia.
Qed.

Lemma truncate_length (max_logs : Z) (l : list RawLog) :
  length (truncate max_logs l)
  = if truncates max_logs l then Z.to_nat max_logs else length l.
Proof.
  unfold truncate. destruct (truncates max_logs l) eqn:E; [|reflexivity].
  unfold truncates in E. apply andb_true_iff in E as [E1 E2].
  rewrite length_firstn. lia.
Qed.

(** ** Strings: hex rendering and escaping *)

#[local] Arguments String.append !_ _ / : simpl nomatch.

Lemma str_app_assoc (a b c : string) : (a +:+ b) +:+ c = a +:+ (b +:+ c).
Proof. induction a as [|x a IH]; [reflexivity|]. simpl. now rewrite IH. Qed.

Lemma all_chars_app (p : ascii -> bool) (a b : string) :
  all_chars p (a +:+ b) = all_chars p a && all_chars p b.
Proof.
  induction a as [|x a IH]; [reflexivity|].
  simpl. now rewrite IH, andb_assoc.
Qed.

Lemma all_chars_impl (p q : ascii -> bool) (s : string) :
  (forall c, p c = true -> q c = true) ->
  all_chars p s = true -> all_chars q s = true.
Proof.
  intros Hpq. induction s as [|c s IH]; [reflexivity|].
  cbn. rewrite !andb_true_iff. intros [Hc Hs]. auto.
Qed.

Lemma all_chars_join (p : ascii -> bool) (sep : string) (parts : list string) :
  all_chars p sep = true ->
  Forall (fun s => all_chars p s = true) parts ->
  all_chars p (Py.join sep parts) = true.
Proof.
  intros Hsep. induction 1 as [|s parts Hs Hparts IH]; [reflexivity|].
  cbn [Py.join]. destruct parts as [|s' parts]; [exact Hs|].
  rewrite !all_chars_app, Hs, Hsep. exact IH.
Qed.

Lemma hex_digit_lower (n : N) : is_lower_hex_char (Py.hex_digit n) = true.
Proof.
  destruct n as [|p]; [reflexivity|].
  do 4 (destruct p as [p|p|]; try reflexivity).
Qed.

Lemma hexlify_lower (bs : list byte) :
  all_chars is_lower_hex_char (Py.hexlify bs) = true.
Proof.
  induction bs as [|b bs IH]; [reflexivity|].
  cbn. now rewrite !hex_digit_lower, IH.
Qed.

(** Section 4.2: [Web3.to_hex] yields 0x and lowercase digits. *)
Lemma to_hex_normalized (bs : list byte) : is_normalized_hex (Py.to_hex bs) = true.
Proof. cbn. apply hexlify_lower. Qed.

Lemma normalize_is_normalized (lg : RawLog) : is_normalized (normalize lg).
Proof.
  repeat split; cbn [normalize transactionHash data topics];
    try apply to_hex_normalized.
  apply List.Forall_forall. intros t Ht. apply in_map_iff in Ht as [bs [<- _]].
  apply to_hex_normalized.
Qed.

Lemma escape_char_hex (c : ascii) :
  is_hex_string_char c = true -> Py.escape_char c = String c EmptyString.
Proof.
  destruct c as [[] [] [] [] [] [] [] []]; try discriminate; reflexivity.
Qed.

Lemma escape_plain (s : string) :
  all_chars is_hex_string_char s = true -> Py.escape s = s.
Proof.
  induction s as [|c s IH]; [reflexivity|].
  cbn. rewrite andb_true_iff. intros [Hc Hs].
  now rewrite (escape_char_hex c Hc), IH.
Qed.

Lemma normalized_hex_chars (s : string) :
  is_normalized_hex s = true -> all_chars is_hex_string_char s = true.
Proof.
  destruct s as [|c0 [|c1 s]]; try discriminate.
  cbn [is_normalized_hex]. intros H.
  apply andb_true_iff in H as [H Hs]. apply andb_true_iff in H as [H0 H1].
  apply Ascii.eqb_eq in H0 as ->, H1 as ->.
  change (all_chars is_hex_string_char s = true).
  eapply all_chars_impl; [|exact Hs].
  intros c Hc. unfold is_hex_string_char. now rewrite Hc.
Qed.

Lemma encode_basestring_hex (s : string) :
  is_normalized_hex s = true -> Py.encode_basestring_ascii s = quoted s.
Proof.
  intros H. unfold Py.encode_basestring_ascii, quoted.
  now rewrite (escape_plain s (normalized_hex_chars s H)).
Qed.

(** ** [json.dumps] against the canonical encoding *)

(** [sort_keys=True] on the five keys of a log dictionary. *)
Lemma log_keys_sorted (v1 v2 v3 v4 v5 : string) :
  Py.sorted (fun a b : string * string => Py.str_lt (fst a) (fst b))
    [ ("blockNumber", v1); ("transactionHash", v2); ("logIndex", v3);
      ("data", v4); ("topics", v5) ]
  = [ ("blockNumber", v1); ("data", v4); ("logIndex", v3);
      ("topics", v5); ("transactionHash", v2) ].
Proof. reflexivity. Qed.

Lemma canonical_keys_increasing :
  StronglySorted (fun a b => Py.str_lt a b = true) canonical_keys.
Proof. repeat constructor. Qed.

Lemma dumps_log (x : Log) :
  is_normalized x -> Py.dumps true "," ":" (log_to_json x) = canonical_record x.
Proof.
  intros (Htx & Hdata & Htopics).
  unfold log_to_json. cbn [Py.dumps map fst snd].
  unfold Py.render_items. rewrite log_keys_sorted.
  cbn [map fst snd Py.join].
  rewrite map_map.
  rewrite (map_ext_in _ quoted)
    by (intros t Ht; cbn [Py.dumps]; apply encode_basestring_hex;
        now apply (proj1 (List.Forall_forall _ _) Htopics)).
  rewrite (encode_basestring_hex _ Htx), (encode_basestring_hex _ Hdata).
  unfold canonical_record. rewrite !str_app_assoc. reflexivity.
Qed.

Lemma dumps_logs (l : list Log) :
  Forall is_normalized l ->
  Py.dumps true "," ":" (Py.JList (map log_to_json l)) = canonical_encoding l.
Proof.
  intros H. cbn [Py.dumps]. unfold canonical_encoding.
  rewrite map_map.
  rewrite (map_ext_in _ canonical_record); [reflexivity|].
  intros x Hx. apply dumps_log. now apply (proj1 (List.Forall_forall _ _) H).
Qed.

(** ** Integers in canonical decimal, and no whitespace *)

Lemma string_of_uint_decimal (d : Decimal.uint) :
  all_chars is_decimal_char (NilEmpty.string_of_uint d) = true.
Proof. induction d; cbn; auto. Qed.

Lemma int_repr_decimal (z : Z) : all_chars is_decimal_char (Py.int_repr z) = true.
Proof.
  unfold Py.int_repr, NilZero.string_of_int, NilZero.string_of_uint.
  destruct (Z.to_int z) as [d|d]; destruct d;
    cbn [all_chars NilEmpty.string_of_uint];
    rewrite ?string_of_uint_decimal; reflexivity.
Qed.

(** Reading the numeral back gives the integer: the rendering is the one
    decimal numeral of the value. *)
Lemma int_repr_canonical (z : Z) :
  option_map Z.of_int (NilZero.int_of_string (Py.int_repr z)) = Some z.
Proof.
  unfold Py.int_repr.
  assert (Z.to_int z = Decimal.norm (Z.to_int z)) as Hnorm
    by (rewrite <- DecimalZ.to_of, DecimalZ.of_to; reflexivity).
  rewrite NilZero.isi.
  - cbn. now rewrite DecimalZ.of_to.
  - rewrite Hnorm. destruct (Z.to_int z) as [d|d]; cbn [Decimal.norm].
    + intros [= E]. now apply DecimalFacts.unorm_nonnil in E.
    + destruct (Decimal.nzhead d); discriminate.
  - rewrite Hnorm. destruct (Z.to_int z) as [d|d]; cbn [Decimal.norm].
    + discriminate.
    + destruct (Decimal.nzhead d); discriminate.
Qed.

Lemma int_repr_inj (a b : Z) : Py.int_repr a = Py.int_repr b -> a = b.
Proof.
  intros E. pose proof (int_repr_canonical a) as Ha.
  rewrite E, int_repr_canonical in Ha. congruence.
Qed.

Create HintDb nospace.

Lemma not_space_decimal (s : string) :
  all_chars is_decimal_char s = true -> all_chars not_space s = true.
Proof.
  apply all_chars_impl.
  intros c. destruct c as [[] [] [] [] [] [] [] []]; try discriminate; reflexivity.
Qed.

Lemma not_space_hex (s : string) :
  is_normalized_hex s = true -> all_chars not_space s = true.
Proof.
  intros H. apply normalized_hex_chars in H. revert H. apply all_chars_impl.
  intros c. destruct c as [[] [] [] [] [] [] [] []]; try discriminate; reflexivity.
Qed.

Lemma not_space_int_repr (z : Z) : all_chars not_space (Py.int_repr z) = true.
Proof. apply not_space_decimal, int_repr_decimal. Qed.

Lemma not_space_quoted (s : string) :
  all_chars not_space s = true -> all_chars not_space (quoted s) = true.
Proof.
  intros H. unfold quoted. cbn [all_chars]. now rewrite all_chars_app, H.
Qed.

#[local] Hint Resolve not_space_int_repr not_space_quoted not_space_hex : nospace.

Lemma not_space_record (x : Log) :
  is_normalized x -> all_chars not_space (canonical_record x) = true.
Proof.
  intros (Htx & Hdata & Htopics). unfold canonical_record.
  rewrite !all_chars_app, !andb_true_iff.
  repeat match goal with |- _ /\ _ => split end;
    try reflexivity; auto with nospace.
  apply all_chars_join; [reflexivity|].
  apply List.Forall_forall. intros t Ht. apply in_map_iff in Ht as [u [<- Hu]].
  apply not_space_quoted, not_space_hex.
  now apply (proj1 (List.Forall_forall _ _) Htopics).
Qed.

(** Section 4.5: the canonical encoding holds no whitespace at all. *)
Lemma not_space_encoding (l : list Log) :
  Forall is_normalized l -> all_chars not_space (canonical_encoding l) = true.
Proof.
  intros H. unfold canonical_encoding.
  rewrite !all_chars_app, !andb_true_iff.
  repeat match goal with |- _ /\ _ => split end; try reflexivity.
  apply all_chars_join; [reflexivity|].
  apply List.Forall_forall. intros t Ht. apply in_map_iff in Ht as [x [<- Hx]].
  apply not_space_record. now apply (proj1 (List.Forall_forall _ _) H).
Qed.

(** ** Runs of [fetch_logs] *)

Section Runs.
Context {World : Type} (node : Node World).

Lemma topic_filter_run (topic0 : option string) (r : Run World) :
  exists tr,
    topic_filter topic0 r
    = (Returned (topic0_list topic0), mkRun (world r) (trace r ++ tr))
    /\ Forall (fun e => is_network_access e = false) tr.
Proof.
  destruct topic0 as [[|c t]|]; cbn [topic_filter topic0_list].
  - exists []. rewrite app_nil_r. destruct r. split; [reflexivity | constructor].
  - unfold bind.
    destruct (negb _ || negb _).
    + exists [Stderr MsgTopic0NotBytes32]. split; [reflexivity|].
      repeat constructor.
    + exists []. rewrite app_nil_r. destruct r. split; [reflexivity | constructor].
  - exists []. rewrite app_nil_r. destruct r. split; [reflexivity | constructor].
Qed.

(** When the address is accepted and the two calls succeed, [fetch_logs]
    returns the snapshot of the truncated answer for the clamped range.
    The run reads the tip once and sends one request, which carries that
    range; everything else it does is printing. *)
Lemma fetch_logs_run (addr : string) (from_block to_block : Z)
    (topic0 : option string) (max_logs : Z) (r : Run World)
    (a : string) (latest : Z) (w1 w2 : World) (received : list RawLog) :
  to_checksum_address node (Py.strip addr) = Some a ->
  block_number node (world r) = (Some latest, w1) ->
  get_logs node (request_of a from_block to_block latest topic0) w1
    = (Some received, w2) ->
  exists tr0 tr1,
    fetch_logs node addr from_block to_block topic0 max_logs r
    = (Returned
         (snapshot_of (hexbytes_prefixed node)
            (fst (clamp_range from_block to_block latest))
            (snd (clamp_range from_block to_block latest))
            topic0 max_logs (truncate max_logs received)),
       mkRun w2
         (trace r ++ [RpcBlockNumber] ++ tr0
          ++ [RpcGetLogs (request_of a from_block to_block latest topic0)]
          ++ tr1))
    /\ Forall (fun e => is_network_access e = false) tr0
    /\ Forall (fun e => is_network_access e = false) tr1.
Proof.
  intros Haddr Htip Hlogs.
  unfold request_of, clamp_range in *. unfold fetch_logs.
  destruct (swap_inverted from_block to_block) as [f t]. cbn [fst snd] in *.
  unfold bind at 1. unfold normalize_address. rewrite Haddr. cbn [ret].
  unfold bind at 1. unfold call at 1. rewrite Htip.
  unfold bind at 1. cbn [print_err emit].
  unfold bind at 1.
  cbn [world trace].
  destruct (topic_filter_run topic0
              (mkRun w1 ((trace r ++ [RpcBlockNumber])
                         ++ [Stderr (MsgFetching a f (Z.min t latest))])))
    as (tr0 & -> & Htr0).
  unfold bind at 1. unfold try_except, call. cbn [world trace]. rewrite Hlogs.
  unfold bind at 1. cbn [print_err emit world trace].
  unfold bind at 1.
  exists (Stderr (MsgFetching a f (Z.min t latest)) :: tr0).
  destruct (truncates max_logs received);
    cbn [print_err emit ret world trace];
    eexists; (split; [rewrite <- !app_assoc; cbn [app]; reflexivity|]);
    (split; [constructor; [reflexivity | exact Htr0] | repeat constructor]).
Qed.
End Runs.

(** ** The snapshot *)

Lemma snapshot_logs (prefixed : bool) (from_block to_block : Z)
    (topic0 : option string) (max_logs : Z) (retained : list RawLog) :
  logs (snapshot_of prefixed from_block to_block topic0 max_logs retained)
  = sort_logs (map normalize retained).
Proof. unfold snapshot_of. cbn [logs]. now rewrite scan_logs_map. Qed.

Lemma sort_logs_perm (l : list Log) : Permutation (sort_logs l) l.
Proof. apply sorted_perm. Qed.

Lemma sort_logs_length (l : list Log) : length (sort_logs l) = length l.
Proof. apply sorted_length. Qed.

Lemma sort_logs_sorted (l : list Log) : StronglySorted key_le (sort_logs l).
Proof.
  assert (StronglySorted (may_precede log_lt) (sort_logs l)) as H
    by (apply sorted_strongly_sorted; [apply log_lt_asym | apply may_precede_trans]).
  induction H as [|x l' Hl IH Hx]; constructor; [exact IH|].
  eapply List.Forall_impl; [|exact Hx]. intros y. apply may_precede_key_le.
Qed.

Lemma same_key_spec (x y : Log) : same_key x y = true <-> sort_key x = sort_key y.
Proof.
  unfold same_key, sort_key.
  rewrite !andb_true_iff, !Z.eqb_eq, String.eqb_eq.
  split; [intros [[-> ->] ->]; reflexivity | intros [= -> -> ->]; auto].
Qed.

Lemma sort_logs_stable (x : Log) (l : list Log) :
  List.filter (same_key x) (sort_logs l) = List.filter (same_key x) l.
Proof.
  apply sorted_filter. intros y z Hy Hz.
  apply same_key_not_lt. apply same_key_spec in Hy, Hz. congruence.
Qed.

Lemma sort_logs_normalized (l : list RawLog) :
  Forall is_normalized (sort_logs (map normalize l)).
Proof.
  apply List.Forall_forall. intros x Hx.
  apply (Permutation_in _ (sort_logs_perm _)) in Hx.
  apply in_map_iff in Hx as [lg [<- _]]. apply normalize_is_normalized.
Qed.

Lemma snapshot_commitment (prefixed : bool) (from_block to_block : Z)
    (topic0 : option string) (max_logs : Z) (retained : list RawLog) :
  commitmentKeccak
    (meta (snapshot_of prefixed from_block to_block topic0 max_logs retained))
  = Py.HexBytes_hex prefixed
      (Keccak.keccak256
         (Py.encode (canonical_encoding (sort_logs (map normalize retained))))).
Proof.
  unfold snapshot_of. cbn [meta commitmentKeccak].
  unfold commitment, encoded. rewrite scan_logs_map.
  now rewrite dumps_logs by apply sort_logs_normalized.
Qed.

Lemma is_min_of_perm (m : Z) (l l' : list Z) :
  Permutation l l' -> is_min_of m l -> is_min_of m l'.
Proof.
  intros HP [Hin Hall]. split.
  - now apply (Permutation_in _ HP).
  - now apply (Permutation_Forall HP).
Qed.

Lemma is_max_of_perm (m : Z) (l l' : list Z) :
  Permutation l l' -> is_max_of m l -> is_max_of m l'.
Proof.
  intros HP [Hin Hall]. split.
  - now apply (Permutation_in _ HP).
  - now apply (Permutation_Forall HP).
Qed.

Lemma block_numbers_normalize (l : list RawLog) :
  map blockNumber (map normalize l) = map raw_blockNumber l.
Proof. rewrite map_map. reflexivity. Qed.

Lemma snapshot_block_numbers (prefixed : bool) (from_block to_block : Z)
    (topic0 : option string) (max_logs : Z) (retained : list RawLog) :
  Permutation (map raw_blockNumber retained)
    (map blockNumber
       (logs (snapshot_of prefixed from_block to_block topic0 max_logs retained))).
Proof.
  rewrite snapshot_logs, <- block_numbers_normalize.
  apply Permutation_map, Permutation_sym, sort_logs_perm.
Qed.

Lemma distinct_tx_count_perm (l l' : list Log) :
  Permutation l l' -> distinct_tx_count l = distinct_tx_count l'.
Proof.
  intros HP. unfold distinct_tx_count.
  rewrite <- !size_list_to_set_distinct. f_equal.
  apply set_eq. intros x. rewrite !elem_of_list_to_set.
  now rewrite HP.
Qed.

Lemma count_occ_map_le {A B : Type} (dA : forall x y : A, {x = y} + {x <> y})
    (dB : forall x y : B, {x = y} + {x <> y}) (f : A -> B) (l : list A) (x : A) :
  (count_occ dA l x <= count_occ dB (map f l) (f x))%nat.
Proof.
  induction l as [|y l IH]; [reflexivity|].
  cbn [map count_occ].
  destruct (dA y x) as [->|Hne].
  - destruct (dB (f x) (f x)); [lia | contradiction].
  - destruct (dB (f y) (f x)); lia.
Qed.

Lemma clamp_range_spec (from_block to_block latest : Z) :
  clamp_range from_block to_block latest
  = (Z.min from_block to_block, Z.min (Z.max from_block to_block) latest).
Proof.
  unfold clamp_range, swap_inverted.
  destruct (Z.gtb_spec from_block to_block); f_equal; lia.
Qed.

Lemma truncate_incl (max_logs : Z) (l : list RawLog) (lg : RawLog) :
  In lg (truncate max_logs l) -> In lg l.
Proof.
  unfold truncate. destruct (truncates max_logs l); [|auto].
  intros H. rewrite <- (firstn_skipn (Z.to_nat max_logs) l).
  apply in_or_app. now left.
Qed.

(** ** The hex rendering loses nothing *)

Lemma hex_val_digit (n : N) : (n < 16)%N -> hex_val (Py.hex_digit n) = n.
Proof.
  intros H. destruct n as [|p]; [reflexivity|].
  do 4 (destruct p as [p|p|]; try reflexivity; try lia).
Qed.

Lemma byte_to_N_inj (b b' : byte) : Byte.to_N b = Byte.to_N b' -> b = b'.
Proof.
  intros E. pose proof (Byte.of_to_N b) as H. rewrite E, Byte.of_to_N in H.
  congruence.
Qed.

Lemma byte_to_N_lt (b : byte) : (Byte.to_N b < 256)%N.
Proof. destruct b; reflexivity. Qed.

Lemma hex_of_byte_inj (b b' : byte) (s s' : string) :
  Py.hex_of_byte b s = Py.hex_of_byte b' s' -> b = b' /\ s = s'.
Proof.
  unfold Py.hex_of_byte. intros [= Hhi Hlo Hs]. split; [|exact Hs].
  pose proof (byte_to_N_lt b) as Hb. pose proof (byte_to_N_lt b') as Hb'.
  apply (f_equal hex_val) in Hhi, Hlo.
  rewrite !hex_val_digit in Hhi, Hlo
    by (try apply N.mod_lt; try apply N.Div0.div_lt_upper_bound; lia).
  apply byte_to_N_inj.
  rewrite (N.div_mod (Byte.to_N b) 16), (N.div_mod (Byte.to_N b') 16) by lia.
  now rewrite Hhi, Hlo.
Qed.

Lemma hexlify_inj (bs bs' : list byte) : Py.hexlify bs = Py.hexlify bs' -> bs = bs'.
Proof.
  revert bs'. induction bs as [|b bs IH]; intros [|b' bs']; cbn [Py.hexlify];
    try reflexivity; try discriminate.
  intros H. apply hex_of_byte_inj in H as [-> H]. f_equal. now apply IH.
Qed.

Lemma to_hex_inj (bs bs' : list byte) : Py.to_hex bs = Py.to_hex bs' -> bs = bs'.
Proof. unfold Py.to_hex. intros [= H]. now apply hexlify_inj. Qed.

(** Normalization is injective: two entries with the same rendering have
    the same fields. *)
Lemma normalize_inj (x y : RawLog) : normalize x = normalize y -> x = y.
Proof.
  destruct x as [bn tx ix d ts], y as [bn' tx' ix' d' ts'].
  unfold normalize. intros H.
  injection H as -> Htx -> Hd Hts.
  apply hexlify_inj in Htx as ->. apply hexlify_inj in Hd as ->.
  f_equal. revert ts' Hts.
  induction ts as [|t ts IH]; intros [|t' ts']; cbn [map];
    try discriminate; [reflexivity|].
  intros Hts. injection Hts as Ht Hts.
  apply hexlify_inj in Ht as ->. f_equal. now apply IH.
Qed.

(** * The claims *)

(** C7. The sorter orders the records by the composite key (block number,
    then transaction hash in lexicographic order, then log index), keeps
    every record, and is stable: the records that share a full key triple
    stand in the output in their input order. *)
Theorem canonical_sort_ordered_and_stable (prefixed : bool) (from_block to_block : Z)
    (topic0 : option string) (max_logs : Z) (retained : list RawLog) :
  let out := logs (snapshot_of prefixed from_block to_block topic0 max_logs retained) in
  StronglySorted key_le out
  /\ Permutation out (map normalize retained)
  /\ forall x, List.filter (same_key x) out
               = List.filter (same_key x) (map normalize retained).
Proof.
  cbv zeta. rewrite snapshot_logs.
  split; [apply sort_logs_sorted|].
  split; [apply sort_logs_perm|].
  intros x. apply sort_logs_stable.
Qed.

(** The claims about one call of [fetch_logs] share its setting: the
    address passes the checksum validator, the tip is read, and the node
    answers the request with a batch. *)
Section FetchLogsClaims.
Context {World : Type} (node : Node World).
Variables (addr : string) (from_block to_block : Z) (topic0 : option string).
Variables (max_logs : Z) (r : Run World).
Variables (a : string) (latest : Z) (w1 w2 : World) (received : list RawLog).

Hypothesis address_ok : to_checksum_address node (Py.strip addr) = Some a.
Hypothesis tip_read : block_number node (world r) = (Some latest, w1).
Hypothesis batch_received :
  get_logs node (request_of a from_block to_block latest topic0) w1
  = (Some received, w2).

(** C1. The commitment of the snapshot is the Keccak hash of the canonical
    encoding of the retained records after sorting: the snapshot's own
    sequence, which is sorted by the composite key and holds every retained
    record and nothing else.  The encoding writes each record with its keys
    in lexicographic order, integers in decimal, the normalized hex strings,
    and no whitespace. *)
Theorem commitment_over_sorted_retained :
  exists snap r',
    fetch_logs node addr from_block to_block topic0 max_logs r = (Returned snap, r')
    /\ let retained := retained_spec max_logs received in
       let sequence := sort_logs (map normalize retained) in
       logs snap = sequence
       /\ StronglySorted key_le sequence
       /\ Permutation sequence (map normalize retained)
       /\ Forall is_normalized sequence
       /\ commitmentKeccak (meta snap)
          = Py.HexBytes_hex (hexbytes_prefixed node)
              (Keccak.keccak256 (Py.encode (canonical_encoding sequence)))
       /\ all_chars not_space (canonical_encoding sequence) = true.
Proof.
  destruct (fetch_logs_run node addr from_block to_block topic0 max_logs r
              a latest w1 w2 received address_ok tip_read batch_received)
    as (tr0 & tr1 & Hrun & _).
  eexists; eexists; split; [exact Hrun|].
  cbv zeta. rewrite <- truncate_retained_spec.
  split; [apply snapshot_logs|].
  split; [apply sort_logs_sorted|].
  split; [apply sort_logs_perm|].
  split; [apply sort_logs_normalized|].
  split; [apply snapshot_commitment|].
  apply not_space_encoding, sort_logs_normalized.
Qed.

(** C3. When the limit is positive and the batch is longer, exactly the
    first [max_logs] records as received are kept, and the sort runs on
    that prefix; with no limit, or a batch within it, every record is
    kept. *)
Theorem truncation_keeps_arrival_prefix :
  exists snap r',
    fetch_logs node addr from_block to_block topic0 max_logs r = (Returned snap, r')
    /\ (max_logs > 0 -> Z.of_nat (length received) > max_logs ->
        logs snap = sort_logs (map normalize (firstn (Z.to_nat max_logs) received))
        /\ logCount (meta snap) = max_logs)
    /\ (max_logs <= 0 \/ Z.of_nat (length received) <= max_logs ->
        logs snap = sort_logs (map normalize received)
        /\ logCount (meta snap) = Z.of_nat (length received)).
Proof.
  destruct (fetch_logs_run node addr from_block to_block topic0 max_logs r
              a latest w1 w2 received address_ok tip_read batch_received)
    as (tr0 & tr1 & Hrun & _).
  eexists; eexists; split; [exact Hrun|].
  unfold snapshot_of. cbn [logs meta logCount].
  rewrite scan_logs_map.
  rewrite !sort_logs_length, !length_map.
  rewrite truncate_length. unfold truncate, truncates.
  split.
  - intros Hpos Hlong.
    destruct (Z.gtb_spec max_logs 0); [|lia].
    destruct (Z.gtb_spec (Z.of_nat (length received)) max_logs); [|lia].
    cbn [andb]. split; [reflexivity | lia].
  - intros Hall.
    destruct (Z.gtb_spec max_logs 0); cbn [andb]; [|now split].
    destruct (Z.gtb_spec (Z.of_nat (length received)) max_logs); [lia | now split].
Qed.

(** C6. The records of the snapshot are the retained records of the batch
    as received, normalized.  The effective range of the snapshot is the
    least and the greatest block number among those retained records, which
    are the block numbers of the snapshot's own records; when no record is
    retained the snapshot has no record and the effective range is the
    requested range, the bounds as given after the swap and the cut at the
    tip. *)
Theorem effective_range_min_max :
  exists snap r',
    fetch_logs node addr from_block to_block topic0 max_logs r = (Returned snap, r')
    /\ fromBlockRequested (meta snap) = fst (clamp_range from_block to_block latest)
    /\ toBlockRequested (meta snap) = snd (clamp_range from_block to_block latest)
    /\ (logs snap = [] ->
        fromBlockEffective (meta snap) = fromBlockRequested (meta snap)
        /\ toBlockEffective (meta snap) = toBlockRequested (meta snap))
    /\ (logs snap <> [] ->
        is_min_of (fromBlockEffective (meta snap)) (map blockNumber (logs snap))
        /\ is_max_of (toBlockEffective (meta snap)) (map blockNumber (logs snap)))
    /\ let retained := retained_spec max_logs received in
       Permutation (logs snap) (map normalize retained)
       /\ Permutation (map blockNumber (logs snap)) (map raw_blockNumber retained)
       /\ (retained = [] ->
           logs snap = []
           /\ fromBlockEffective (meta snap) = fst (clamp_range from_block to_block latest)
           /\ toBlockEffective (meta snap) = snd (clamp_range from_block to_block latest))
       /\ (retained <> [] ->
           logs snap <> []
           /\ is_min_of (fromBlockEffective (meta snap)) (map raw_blockNumber retained)
           /\ is_max_of (toBlockEffective (meta snap)) (map raw_blockNumber retained)).
Proof.
  destruct (fetch_logs_run node addr from_block to_block topic0 max_logs r
              a latest w1 w2 received address_ok tip_read batch_received)
    as (tr0 & tr1 & Hrun & _).
  eexists; eexists; split; [exact Hrun|].
  split; [reflexivity|]. split; [reflexivity|].
  cbv zeta. rewrite <- truncate_retained_spec.
  set (retained := truncate max_logs received).
  pose proof (snapshot_block_numbers (hexbytes_prefixed node)
                (fst (clamp_range from_block to_block latest))
                (snd (clamp_range from_block to_block latest))
                topic0 max_logs retained) as HP.
  pose proof (scan_min_block retained) as Hmin.
  pose proof (scan_max_block retained) as Hmax.
  rewrite snapshot_logs in *.
  unfold snapshot_of. cbn [meta fromBlockEffective toBlockEffective
                             fromBlockRequested toBlockRequested].
  assert (sort_logs (map normalize retained) = [] <-> retained = []) as Hnil.
  { split.
    - intros H. apply (f_equal (@length Log)) in H.
      rewrite sort_logs_length, length_map in H. now destruct retained.
    - now intros ->. }
  split; [|split; [|split; [|split; [|split]]]].
  - intros H. apply Hnil in H. revert Hmin Hmax. rewrite H. cbn.
    split; reflexivity.
  - intros Hne.
    destruct (min_block_seen (scan retained)) as [m|];
      [|rewrite Hmin in Hne; now contradiction Hne].
    destruct (max_block_seen (scan retained)) as [m'|];
      [|rewrite Hmax in Hne; now contradiction Hne].
    cbn [default]. split.
    + exact (is_min_of_perm _ _ _ HP Hmin).
    + exact (is_max_of_perm _ _ _ HP Hmax).
  - apply sort_logs_perm.
  - symmetry. exact HP.
  - intros H. revert Hmin Hmax. rewrite H. cbn. repeat split; reflexivity.
  - intros Hne. split; [now rewrite Hnil|].
    destruct (min_block_seen (scan retained)) as [m|];
      [|now contradiction Hne].
    destruct (max_block_seen (scan retained)) as [m'|];
      [|now contradiction Hne].
    cbn [default]. split; assumption.
Qed.

(** C8. [uniqueTxCount] is the number of distinct transaction hashes among
    the records of the snapshot, which are the retained records. *)
Theorem unique_tx_count_distinct :
  exists snap r',
    fetch_logs node addr from_block to_block topic0 max_logs r = (Returned snap, r')
    /\ uniqueTxCount (meta snap) = Z.of_nat (distinct_tx_count (logs snap))
    /\ distinct_tx_count (logs snap)
       = distinct_tx_count (map normalize (retained_spec max_logs received)).
Proof.
  destruct (fetch_logs_run node addr from_block to_block topic0 max_logs r
              a latest w1 w2 received address_ok tip_read batch_received)
    as (tr0 & tr1 & Hrun & _).
  eexists; eexists; split; [exact Hrun|].
  rewrite <- truncate_retained_spec, snapshot_logs.
  rewrite (distinct_tx_count_perm _ _ (sort_logs_perm _)).
  split; [|reflexivity].
  unfold snapshot_of. cbn [meta uniqueTxCount].
  rewrite scan_tx_set, size_list_to_set_distinct. reflexivity.
Qed.

(** C10. Nothing is deduplicated: every record occurs in the snapshot as
    many times as among the retained records, [logCount] counts them all,
    and each occurrence is a part of the encoding that is hashed. *)
Theorem duplicates_are_kept :
  exists snap r',
    fetch_logs node addr from_block to_block topic0 max_logs r = (Returned snap, r')
    /\ let retained := map normalize (retained_spec max_logs received) in
       (forall x, count_occ Log_eq_dec (logs snap) x
                  = count_occ Log_eq_dec retained x)
       /\ logCount (meta snap) = Z.of_nat (length retained)
       /\ (forall x, (count_occ Log_eq_dec retained x
                      <= count_occ string_dec (map canonical_record (logs snap))
                           (canonical_record x))%nat)
       /\ commitmentKeccak (meta snap)
          = Py.HexBytes_hex (hexbytes_prefixed node)
              (Keccak.keccak256
                 (Py.encode
                    ("[" +:+ Py.join "," (map canonical_record (logs snap)) +:+ "]"))).
Proof.
  destruct (fetch_logs_run node addr from_block to_block topic0 max_logs r
              a latest w1 w2 received address_ok tip_read batch_received)
    as (tr0 & tr1 & Hrun & _).
  eexists; eexists; split; [exact Hrun|].
  cbv zeta. rewrite <- truncate_retained_spec.
  assert (forall x,
    count_occ Log_eq_dec
      (sort_logs (map normalize (truncate max_logs received))) x
    = count_occ Log_eq_dec (map normalize (truncate max_logs received)) x) as Hcount
    by (apply Permutation_count_occ, sort_logs_perm).
  rewrite snapshot_commitment, snapshot_logs.
  split; [exact Hcount|].
  split.
  { unfold snapshot_of. cbn [meta logCount].
    now rewrite sort_logs_length, scan_logs_map. }
  split; [|reflexivity].
  intros x. rewrite <- Hcount. apply count_occ_map_le.
Qed.

(** C5, as the code has it.  The call returns for any pair of bounds, and
    its one request carries the smaller bound as [fromBlock] and the
    larger, cut at the tip just read, as [toBlock]: the upper bound of the
    request and [toBlockRequested] never exceed the tip, and the range sent
    is in order whenever the smaller bound is not beyond the tip.
    [toBlockEffective] is [toBlockRequested] when no record is retained and
    the greatest block number among the retained records otherwise, so it
    is within the tip exactly when the retained records are. *)
Theorem to_block_clamped_at_tip :
  exists snap r',
    fetch_logs node addr from_block to_block topic0 max_logs r = (Returned snap, r')
    /\ (forall p, In (RpcGetLogs p) (trace r') ->
          In (RpcGetLogs p) (trace r)
          \/ (toBlock p <= latest
              /\ fromBlock p = Z.min from_block to_block
              /\ toBlock p = Z.min (Z.max from_block to_block) latest
              /\ (Z.min from_block to_block <= latest -> fromBlock p <= toBlock p)))
    /\ In (RpcGetLogs (request_of a from_block to_block latest topic0)) (trace r')
    /\ fromBlockRequested (meta snap) = Z.min from_block to_block
    /\ toBlockRequested (meta snap) = Z.min (Z.max from_block to_block) latest
    /\ toBlockRequested (meta snap) <= latest
    /\ (Z.min from_block to_block <= latest ->
        fromBlockRequested (meta snap) <= toBlockRequested (meta snap))
    /\ let retained := retained_spec max_logs received in
       (retained = [] ->
        toBlockEffective (meta snap) = toBlockRequested (meta snap))
       /\ (retained <> [] ->
           is_max_of (toBlockEffective (meta snap)) (map raw_blockNumber retained))
       /\ (toBlockEffective (meta snap) <= latest
           <-> Forall (fun lg => raw_blockNumber lg <= latest) retained).
Proof.
  destruct (fetch_logs_run node addr from_block to_block topic0 max_logs r
              a latest w1 w2 received address_ok tip_read batch_received)
    as (tr0 & tr1 & Hrun & Htr0 & Htr1).
  eexists; eexists; split; [exact Hrun|].
  cbv zeta. rewrite <- truncate_retained_spec.
  cbn [trace]. unfold request_of. rewrite clamp_range_spec. cbn [fst snd toBlock fromBlock].
  unfold snapshot_of.
  cbn [meta toBlockRequested fromBlockRequested toBlockEffective].
  pose proof (scan_max_block (truncate max_logs received)) as Hmax.
  repeat apply conj.
  - intros p Hp. rewrite !in_app_iff in Hp. cbn [In] in Hp.
    rewrite List.Forall_forall in Htr0, Htr1.
    destruct Hp as [Hp|[[Hp|[]]|[Hp|[[Hp|[]]|Hp]]]];
      [now left | discriminate | now apply Htr0 in Hp | | now apply Htr1 in Hp].
    injection Hp as <-. right. cbn [toBlock fromBlock].
    repeat apply conj; [apply Z.le_min_r | reflexivity | reflexivity | lia].
  - rewrite !in_app_iff. cbn [In]. tauto.
  - reflexivity.
  - reflexivity.
  - apply Z.le_min_r.
  - lia.
  - intros Hnil. rewrite Hnil. reflexivity.
  - intros Hne.
    destruct (max_block_seen (scan (truncate max_logs received))) as [m|];
      [exact Hmax | now contradiction Hne].
  - intros Hle.
    destruct (max_block_seen (scan (truncate max_logs received))) as [m|];
      [|rewrite Hmax; constructor].
    cbn [default] in Hle. unfold id in Hle. destruct Hmax as [_ Hall].
    rewrite List.Forall_forall in Hall. apply List.Forall_forall.
    intros lg Hlg. specialize (Hall (raw_blockNumber lg) (in_map _ _ _ Hlg)).
    cbn beta in Hall. lia.
  - intros Hall.
    destruct (max_block_seen (scan (truncate max_logs received))) as [m|];
      cbn [default]; unfold id; [|lia].
    destruct Hmax as [Hin _]. apply in_map_iff in Hin as [lg [<- Hlg]].
    rewrite List.Forall_forall in Hall. exact (Hall lg Hlg).
Qed.
End FetchLogsClaims.

(** C5, as stated, fails on two counts.  Asked for the blocks 700 down to
    600 at tip 500, the call swaps the bounds and then cuts the upper one:
    it sends and records the range from 600 to 500, inverted again.  And
    the effective upper bound is read off the records as they come: when
    the node at tip 500 answers with an entry of block 1000,
    [toBlockEffective] is 1000. *)
Lemma clamp_keeps_neither_order_nor_effective_bound :
  (exists snap r',
     fetch_logs (fixed_node 500 (Some [])) deposit_contract 700 600 None 5000
       (start tt) = (Returned snap, r')
     /\ In (RpcGetLogs (request_of deposit_contract 700 600 500 None)) (trace r')
     /\ fromBlock (request_of deposit_contract 700 600 500 None) = 600
     /\ toBlock (request_of deposit_contract 700 600 500 None) = 500
     /\ fromBlockRequested (meta snap) = 600
     /\ toBlockRequested (meta snap) = 500
     /\ fromBlockEffective (meta snap) = 600
     /\ toBlockEffective (meta snap) = 500
     /\ ~ fromBlockRequested (meta snap) <= toBlockRequested (meta snap))
  /\ (exists snap r',
        fetch_logs (fixed_node 500 (Some late_batch)) deposit_contract 0 600 None 5000
          (start tt) = (Returned snap, r')
        /\ toBlockRequested (meta snap) = 500
        /\ toBlockEffective (meta snap) = 1000
        /\ ~ toBlockEffective (meta snap) <= 500).
Proof.
  split.
  - eexists; eexists. split; [vm_compute; reflexivity|].
    cbn [meta trace fromBlockRequested toBlockRequested fromBlockEffective
         toBlockEffective].
    split; [vm_compute; tauto|].
    repeat split; try reflexivity. lia.
  - eexists; eexists. split; [vm_compute; reflexivity|].
    cbn [meta toBlockRequested toBlockEffective].
    repeat split; try reflexivity. lia.
Qed.

(** ** Order independence *)

Lemma truncate_all (max_logs : Z) (l : list RawLog) :
  max_logs = 0 \/ Z.of_nat (length l) <= max_logs -> truncate max_logs l = l.
Proof.
  intros H. unfold truncate, truncates.
  destruct (Z.gtb_spec max_logs 0); [|reflexivity].
  destruct (Z.gtb_spec (Z.of_nat (length l)) max_logs); [lia | reflexivity].
Qed.

Lemma sort_key_normalize (x y : RawLog) :
  sort_key (normalize x) = sort_key (normalize y) -> same_raw_key x y.
Proof.
  unfold sort_key, normalize, same_raw_key. cbn [blockNumber transactionHash logIndex].
  intros H. injection H as Hb Ht Hi. apply hexlify_inj in Ht. auto.
Qed.

Lemma sort_normalize_perm (batch permuted : list RawLog) :
  Permutation batch permuted -> key_determines_entry batch ->
  sort_logs (map normalize batch) = sort_logs (map normalize permuted).
Proof.
  intros HP Hkey. apply sorted_perm_eq.
  - apply log_lt_asym.
  - apply may_precede_trans.
  - intros x y Hx Hy Hxy Hyx.
    apply in_map_iff in Hx as [x0 [<- Hx0]], Hy as [y0 [<- Hy0]].
    f_equal. apply Hkey; auto.
    apply sort_key_normalize. now apply may_precede_both.
  - now apply Permutation_map.
Qed.

Lemma unique_within_tx_determines_entry (batch : list RawLog) :
  log_index_unique_within_tx batch -> key_determines_entry batch.
Proof.
  intros Huniq x y Hx Hy (_ & Htx & Hidx). now apply Huniq.
Qed.

(** The sort looks at the key triple alone: two calls whose batches are
    permutations of one another, neither of them truncated, return the same
    sequence and the same commitment as soon as the key triple tells the
    entries of the batch apart. *)
Lemma order_independence_by_key {World : Type} (node : Node World)
    (addr : string) (from_block to_block : Z) (topic0 : option string)
    (max_logs : Z) (r1 r2 : Run World) (a : string) (latest1 latest2 : Z)
    (w1 w1' w2 w2' : World) (batch permuted : list RawLog) :
  to_checksum_address node (Py.strip addr) = Some a ->
  block_number node (world r1) = (Some latest1, w1) ->
  get_logs node (request_of a from_block to_block latest1 topic0) w1
    = (Some batch, w1') ->
  block_number node (world r2) = (Some latest2, w2) ->
  get_logs node (request_of a from_block to_block latest2 topic0) w2
    = (Some permuted, w2') ->
  Permutation batch permuted ->
  max_logs = 0 \/ Z.of_nat (length batch) <= max_logs ->
  key_determines_entry batch ->
  exists s1 s2 r1' r2',
    fetch_logs node addr from_block to_block topic0 max_logs r1 = (Returned s1, r1')
    /\ fetch_logs node addr from_block to_block topic0 max_logs r2 = (Returned s2, r2')
    /\ logs s1 = logs s2
    /\ commitmentKeccak (meta s1) = commitmentKeccak (meta s2).
Proof.
  intros Haddr Htip1 Hlogs1 Htip2 Hlogs2 HP Hfit Hkey.
  destruct (fetch_logs_run node addr from_block to_block topic0 max_logs r1
              a latest1 w1 w1' batch Haddr Htip1 Hlogs1) as (? & ? & Hrun1 & _).
  destruct (fetch_logs_run node addr from_block to_block topic0 max_logs r2
              a latest2 w2 w2' permuted Haddr Htip2 Hlogs2) as (? & ? & Hrun2 & _).
  do 4 eexists. split; [exact Hrun1|]. split; [exact Hrun2|].
  rewrite !snapshot_commitment, !snapshot_logs.
  rewrite (truncate_all max_logs batch Hfit).
  rewrite (truncate_all max_logs permuted)
    by (rewrite <- (Permutation_length HP); exact Hfit).
  rewrite (sort_normalize_perm batch permuted HP Hkey). split; reflexivity.
Qed.

(** C2. For every batch of raw log records, in which the log index is
    unique within a transaction, and every permutation of that batch: when
    no truncation occurs (the limit is 0, or the batch is no longer than the
    limit), the call on the permuted batch returns the same sequence and
    the same commitment as the call on the original batch, whatever the tip
    each call reads. *)
Theorem order_independence_without_truncation {World : Type} (node : Node World)
    (addr : string) (from_block to_block : Z) (topic0 : option string)
    (max_logs : Z) (r1 r2 : Run World) (a : string) (latest1 latest2 : Z)
    (w1 w1' w2 w2' : World) (batch permuted : list RawLog) :
  to_checksum_address node (Py.strip addr) = Some a ->
  block_number node (world r1) = (Some latest1, w1) ->
  get_logs node (request_of a from_block to_block latest1 topic0) w1
    = (Some batch, w1') ->
  block_number node (world r2) = (Some latest2, w2) ->
  get_logs node (request_of a from_block to_block latest2 topic0) w2
    = (Some permuted, w2') ->
  log_index_unique_within_tx batch ->
  Permutation batch permuted ->
  max_logs = 0 \/ Z.of_nat (length batch) <= max_logs ->
  exists s1 s2 r1' r2',
    fetch_logs node addr from_block to_block topic0 max_logs r1 = (Returned s1, r1')
    /\ fetch_logs node addr from_block to_block topic0 max_logs r2 = (Returned s2, r2')
    /\ logs s1 = logs s2
    /\ encoded (logs s1) = encoded (logs s2)
    /\ commitmentKeccak (meta s1) = commitmentKeccak (meta s2).
Proof.
  intros Haddr Htip1 Hlogs1 Htip2 Hlogs2 Huniq HP Hfit.
  destruct (order_independence_by_key node addr from_block to_block topic0
              max_logs r1 r2 a latest1 latest2 w1 w1' w2 w2' batch permuted
              Haddr Htip1 Hlogs1 Htip2 Hlogs2 HP Hfit
              (unique_within_tx_determines_entry batch Huniq))
    as (s1 & s2 & r1' & r2' & Hrun1 & Hrun2 & Hlogs & Hcommit).
  exists s1, s2, r1', r2'. rewrite Hlogs. auto.
Qed.

(** ** Range resolution in [main] *)

(** C4, as the code has it.  With [to_block] alone, the lower bound is
    [to_block - blocks + 1], not below 0; with [from_block] alone, the upper
    bound is the tip, whatever [blocks] is; with neither, the window of
    [blocks] blocks ends at the tip. *)
Theorem resolve_range_one_bound (bound blocks tip : Z) :
  resolve_range None (Some bound) blocks tip = (Z.max 0 (bound - blocks + 1), bound)
  /\ resolve_range (Some bound) None blocks tip = (bound, tip)
  /\ resolve_range None None blocks tip = (Z.max 0 (tip - blocks + 1), tip)
  /\ 0 <= fst (resolve_range None (Some bound) blocks tip).
Proof.
  unfold resolve_range. cbn [default from_option fst]. unfold id.
  repeat split. lia.
Qed.

(** C4, as stated, fails: with [from_block] alone the upper bound is not a
    function of [from_block] and [blocks]; it follows the tip, and it is not
    [from_block + blocks - 1]. *)
Lemma upper_bound_not_derived_from_blocks :
  snd (resolve_range (Some 10) None 5 1000) = 1000
  /\ snd (resolve_range (Some 10) None 5 1000) <> 10 + 5 - 1
  /\ snd (resolve_range (Some 10) None 5 1000) = snd (resolve_range (Some 10) None 7 1000)
  /\ ~ (exists derive : Z -> Z -> Z,
          forall from_block blocks tip,
            snd (resolve_range (Some from_block) None blocks tip)
            = derive from_block blocks).
Proof.
  repeat split; try discriminate.
  intros [derive H].
  pose proof (H 10 5 1000) as H1. pose proof (H 10 5 2000) as H2.
  cbn in H1, H2. congruence.
Qed.

(** ** The guard on [--blocks] *)

(** C9. With [blocks <= 0] the run prints the error and exits with status 1;
    by then it has not touched the network (the node is as it was and the
    trace holds no call) and it has written nothing to stdout. *)
Theorem nonpositive_blocks_abort_before_network {World : Type} (node : Node World)
    (DEFAULT_RPC : string) (args : Args) (w : World) :
  arg_blocks args <= 0 ->
  exists tr,
    main node DEFAULT_RPC args (start w) = (Exited 1, mkRun w tr)
    /\ In (Stderr MsgBlocksMustBePositive) tr
    /\ Forall (fun e => is_network_access e = false) tr
    /\ Forall (fun e => is_stdout e = false) tr.
Proof.
  intros Hblocks. unfold main, start.
  destruct (Z.leb_spec (arg_blocks args) 0) as [_|]; [|lia].
  destruct (Py.contains DEFAULT_RPC "your_api_key").
  - exists [Stderr MsgPlaceholderKey; Stderr MsgBlocksMustBePositive].
    split; [reflexivity|]. split; [right; now left|].
    split; repeat constructor.
  - exists [Stderr MsgBlocksMustBePositive].
    split; [reflexivity|]. split; [now left|].
    split; repeat constructor.
Qed.

(** * Concrete runs

    Each statement above that rests on assumptions is used once on a run
    that can be evaluated: the node with tip 500 that answers with
    [demo_batch], asked for the blocks 600 down to 10 with a limit of two
    records. *)

Lemma commitment_over_sorted_retained_witness :
  exists snap r',
    fetch_logs (fixed_node 500 (Some demo_batch)) "0xabc" 600 10 None 2 (start tt)
    = (Returned snap, r')
    /\ let retained := retained_spec 2 demo_batch in
       let sequence := sort_logs (map normalize retained) in
       logs snap = sequence
       /\ StronglySorted key_le sequence
       /\ Permutation sequence (map normalize retained)
       /\ Forall is_normalized sequence
       /\ commitmentKeccak (meta snap)
          = Py.HexBytes_hex (hexbytes_prefixed (fixed_node 500 (Some demo_batch)))
              (Keccak.keccak256 (Py.encode (canonical_encoding sequence)))
       /\ all_chars not_space (canonical_encoding sequence) = true.
Proof.
  exact (commitment_over_sorted_retained (fixed_node 500 (Some demo_batch))
           "0xabc" 600 10 None 2 (start tt) "0xabc" 500 tt tt demo_batch
           eq_refl eq_refl eq_refl).
Defined.

Lemma truncation_keeps_arrival_prefix_witness :
  exists snap r',
    fetch_logs (fixed_node 500 (Some demo_batch)) "0xabc" 600 10 None 2 (start tt)
    = (Returned snap, r')
    /\ (2 > 0 -> Z.of_nat (length demo_batch) > 2 ->
        logs snap = sort_logs (map normalize (firstn (Z.to_nat 2) demo_batch))
        /\ logCount (meta snap) = 2)
    /\ (2 <= 0 \/ Z.of_nat (length demo_batch) <= 2 ->
        logs snap = sort_logs (map normalize demo_batch)
        /\ logCount (meta snap) = Z.of_nat (length demo_batch)).
Proof.
  exact (truncation_keeps_arrival_prefix (fixed_node 500 (Some demo_batch))
           "0xabc" 600 10 None 2 (start tt) "0xabc" 500 tt tt demo_batch
           eq_refl eq_refl eq_refl).
Defined.

Lemma to_block_clamped_at_tip_witness :
  exists snap r',
    fetch_logs (fixed_node 500 (Some demo_batch)) deposit_contract 600 10 None 2
      (start tt) = (Returned snap, r')
    /\ (forall p, In (RpcGetLogs p) (trace r') ->
          In (RpcGetLogs p) (trace (start tt))
          \/ (toBlock p <= 500
              /\ fromBlock p = Z.min 600 10
              /\ toBlock p = Z.min (Z.max 600 10) 500
              /\ (Z.min 600 10 <= 500 -> fromBlock p <= toBlock p)))
    /\ In (RpcGetLogs (request_of deposit_contract 600 10 500 None)) (trace r')
    /\ fromBlockRequested (meta snap) = Z.min 600 10
    /\ toBlockRequested (meta snap) = Z.min (Z.max 600 10) 500
    /\ toBlockRequested (meta snap) <= 500
    /\ (Z.min 600 10 <= 500 ->
        fromBlockRequested (meta snap) <= toBlockRequested (meta snap))
    /\ let retained := retained_spec 2 demo_batch in
       (retained = [] ->
        toBlockEffective (meta snap) = toBlockRequested (meta snap))
       /\ (retained <> [] ->
           is_max_of (toBlockEffective (meta snap)) (map raw_blockNumber retained))
       /\ (toBlockEffective (meta snap) <= 500
           <-> Forall (fun lg => raw_blockNumber lg <= 500) retained).
Proof.
  exact (to_block_clamped_at_tip (fixed_node 500 (Some demo_batch))
           deposit_contract 600 10 None 2 (start tt) deposit_contract 500 tt tt
           demo_batch eq_refl eq_refl eq_refl).
Defined.

Lemma effective_range_min_max_witness :
  exists snap r',
    fetch_logs (fixed_node 500 (Some demo_batch)) deposit_contract 600 10 None 2 (start tt)
    = (Returned snap, r')
    /\ fromBlockRequested (meta snap) = fst (clamp_range 600 10 500)
    /\ toBlockRequested (meta snap) = snd (clamp_range 600 10 500)
    /\ (logs snap = [] ->
        fromBlockEffective (meta snap) = fromBlockRequested (meta snap)
        /\ toBlockEffective (meta snap) = toBlockRequested (meta snap))
    /\ (logs snap <> [] ->
        is_min_of (fromBlockEffective (meta snap)) (map blockNumber (logs snap))
        /\ is_max_of (toBlockEffective (meta snap)) (map blockNumber (logs snap)))
    /\ let retained := retained_spec 2 demo_batch in
       Permutation (logs snap) (map normalize retained)
       /\ Permutation (map blockNumber (logs snap)) (map raw_blockNumber retained)
       /\ (retained = [] ->
           logs snap = []
           /\ fromBlockEffective (meta snap) = fst (clamp_range 600 10 500)
           /\ toBlockEffective (meta snap) = snd (clamp_range 600 10 500))
       /\ (retained <> [] ->
           logs snap <> []
           /\ is_min_of (fromBlockEffective (meta snap)) (map raw_blockNumber retained)
           /\ is_max_of (toBlockEffective (meta snap)) (map raw_blockNumber retained)).
Proof.
  exact (effective_range_min_max (fixed_node 500 (Some demo_batch))
           deposit_contract 600 10 None 2 (start tt) deposit_contract 500 tt tt demo_batch
           eq_refl eq_refl eq_refl).
Defined.

(** The example of the specification: three records of two transactions. *)
Lemma unique_tx_count_distinct_witness :
  distinct_tx_count (map normalize (retained_spec 0 demo_batch)) = 2%nat
  /\ exists snap r',
       fetch_logs (fixed_node 500 (Some demo_batch)) "0xabc" 600 10 None 0 (start tt)
       = (Returned snap, r')
       /\ uniqueTxCount (meta snap) = Z.of_nat (distinct_tx_count (logs snap))
       /\ distinct_tx_count (logs snap)
          = distinct_tx_count (map normalize (retained_spec 0 demo_batch)).
Proof.
  split; [vm_compute; reflexivity|].
  exact (unique_tx_count_distinct (fixed_node 500 (Some demo_batch))
           "0xabc" 600 10 None 0 (start tt) "0xabc" 500 tt tt demo_batch
           eq_refl eq_refl eq_refl).
Defined.

Lemma duplicates_are_kept_witness :
  exists snap r',
    fetch_logs (fixed_node 500 (Some (demo_batch ++ demo_batch)))
      "0xabc" 600 10 None 0 (start tt)
    = (Returned snap, r')
    /\ let retained := map normalize (retained_spec 0 (demo_batch ++ demo_batch)) in
       (forall x, count_occ Log_eq_dec (logs snap) x
                  = count_occ Log_eq_dec retained x)
       /\ logCount (meta snap) = Z.of_nat (length retained)
       /\ (forall x, (count_occ Log_eq_dec retained x
                      <= count_occ string_dec (map canonical_record (logs snap))
                           (canonical_record x))%nat)
       /\ commitmentKeccak (meta snap)
          = Py.HexBytes_hex
              (hexbytes_prefixed (fixed_node 500 (Some (demo_batch ++ demo_batch))))
              (Keccak.keccak256
                 (Py.encode
                    ("[" +:+ Py.join "," (map canonical_record (logs snap)) +:+ "]"))).
Proof.
  exact (duplicates_are_kept (fixed_node 500 (Some (demo_batch ++ demo_batch)))
           "0xabc" 600 10 None 0 (start tt) "0xabc" 500 tt tt
           (demo_batch ++ demo_batch) eq_refl eq_refl eq_refl).
Defined.

Lemma order_independence_without_truncation_witness :
  log_index_unique_within_tx demo_batch
  /\ Permutation demo_batch (rev demo_batch)
  /\ (0 = 0 \/ Z.of_nat (length demo_batch) <= 0)
  /\ exists s1 s2 r1' r2',
       fetch_logs (replaying_node 500 demo_batch (rev demo_batch))
         deposit_contract 600 10 None 0 (start true) = (Returned s1, r1')
       /\ fetch_logs (replaying_node 500 demo_batch (rev demo_batch))
            deposit_contract 600 10 None 0 (start false) = (Returned s2, r2')
       /\ logs s1 = logs s2
       /\ encoded (logs s1) = encoded (logs s2)
       /\ commitmentKeccak (meta s1) = commitmentKeccak (meta s2).
Proof.
  assert (log_index_unique_within_tx demo_batch) as Huniq.
  { intros x y Hx Hy Ht Hi. cbn in Hx, Hy.
    destruct Hx as [<-|[<-|[<-|[]]]], Hy as [<-|[<-|[<-|[]]]];
      try reflexivity; discriminate. }
  split; [exact Huniq|]. split; [apply Permutation_rev|]. split; [now left|].
  exact (order_independence_without_truncation
           (replaying_node 500 demo_batch (rev demo_batch))
           deposit_contract 600 10 None 0 (start true) (start false)
           deposit_contract 500 500
           true true false false demo_batch (rev demo_batch)
           eq_refl eq_refl eq_refl eq_refl eq_refl
           Huniq (Permutation_rev demo_batch) (or_introl eq_refl)).
Defined.

Lemma nonpositive_blocks_abort_before_network_witness :
  arg_blocks zero_blocks_args <= 0
  /\ exists tr,
       main (fixed_node 500 None) "http://localhost:8545" zero_blocks_args (start tt)
       = (Exited 1, mkRun tt tr)
       /\ In (Stderr MsgBlocksMustBePositive) tr
       /\ Forall (fun e => is_network_access e = false) tr
       /\ Forall (fun e => is_stdout e = false) tr.
Proof.
  split; [apply Z.le_refl|].
  exact (nonpositive_blocks_abort_before_network (fixed_node 500 None)
           "http://localhost:8545" zero_blocks_args tt (Z.le_refl 0)).
Defined.

(** * Further properties of the code *)

(** ** The block range *)

(** With neither bound given and a tip that has not moved back, the range
    that reaches the node is the one [main] resolved: it ends at the tip and
    holds [blocks] blocks, or all the blocks up to the tip when the chain is
    shorter than that. *)
Theorem default_window_width (blocks tip latest : Z) :
  blocks > 0 -> 0 <= tip <= latest ->
  let '(from_block, to_block) := resolve_range None None blocks tip in
  clamp_range from_block to_block latest = (from_block, to_block)
  /\ to_block = tip
  /\ to_block - from_block + 1 = Z.min blocks (tip + 1).
Proof.
  intros Hb Ht. unfold resolve_range. rewrite clamp_range_spec.
  repeat split; try f_equal; lia.
Qed.

Lemma default_window_width_witness :
  2000 > 0 /\ 0 <= 500 <= 500
  /\ let '(from_block, to_block) := resolve_range None None 2000 500 in
     clamp_range from_block to_block 500 = (from_block, to_block)
     /\ to_block = 500
     /\ to_block - from_block + 1 = Z.min 2000 (500 + 1).
Proof.
  split; [reflexivity|]. split; [split; discriminate|].
  apply (default_window_width 2000 500 500); [reflexivity | split; discriminate].
Defined.

(** With [from_block] alone and beyond the tip, the pair [main] resolves is
    inverted; [fetch_logs] swaps it and cuts it at the tip, so the request
    covers the blocks from the tip [main] read to the tip [fetch_logs] read,
    not the block asked for. *)
Theorem from_block_beyond_tip (from_block blocks tip latest : Z) (a : string)
    (topic0 : option string) :
  tip < from_block -> tip <= latest ->
  let '(f, t) := resolve_range (Some from_block) None blocks tip in
  f > t
  /\ fromBlock (request_of a f t latest topic0) = tip
  /\ toBlock (request_of a f t latest topic0) = Z.min from_block latest.
Proof.
  intros H1 H2. unfold resolve_range, request_of. cbn [default from_option].
  unfold id. rewrite clamp_range_spec. cbn [fst snd fromBlock toBlock].
  repeat split; lia.
Qed.

Lemma from_block_beyond_tip_witness :
  500 < 1000 /\ 500 <= 500
  /\ let '(f, t) := resolve_range (Some 1000) None 2000 500 in
     f > t
     /\ fromBlock (request_of "0xabc" f t 500 None) = 500
     /\ toBlock (request_of "0xabc" f t 500 None) = Z.min 1000 500.
Proof.
  split; [reflexivity|]. split; [discriminate|].
  apply (from_block_beyond_tip 1000 2000 500 500 "0xabc" None);
    [reflexivity | discriminate].
Defined.

(** ** What a call of [fetch_logs] does, event by event *)

Lemma topic_filter_trace {World : Type} (topic0 : option string) (r : Run World) :
  topic_filter topic0 r
  = (Returned (topic0_list topic0),
     mkRun (world r)
       (trace r ++ (if topic0_warns topic0 then [Stderr MsgTopic0NotBytes32] else []))).
Proof.
  destruct r as [w tr].
  destruct topic0 as [[|c t]|]; cbn [topic_filter topic0_list topic0_warns world trace].
  - now rewrite app_nil_r.
  - unfold bind. destruct (negb _ || negb _); cbn [print_err emit ret world trace].
    + reflexivity.
    + now rewrite app_nil_r.
  - now rewrite app_nil_r.
Qed.

Lemma fetch_logs_trace {World : Type} (node : Node World) (addr : string)
    (from_block to_block : Z) (topic0 : option string) (max_logs : Z)
    (r : Run World) (a : string) (latest : Z) (w1 w2 : World)
    (received : list RawLog) :
  to_checksum_address node (Py.strip addr) = Some a ->
  block_number node (world r) = (Some latest, w1) ->
  get_logs node (request_of a from_block to_block latest topic0) w1
    = (Some received, w2) ->
  fetch_logs node addr from_block to_block topic0 max_logs r
  = (Returned
       (snapshot_of (hexbytes_prefixed node)
          (fst (clamp_range from_block to_block latest))
          (snd (clamp_range from_block to_block latest))
          topic0 max_logs (truncate max_logs received)),
     mkRun w2
       (trace r ++ fetch_logs_events a from_block to_block latest topic0
                     max_logs received)).
Proof.
  intros Haddr Htip Hlogs.
  unfold fetch_logs_events, request_of, clamp_range in *. unfold fetch_logs.
  destruct (swap_inverted from_block to_block) as [f t]. cbn [fst snd] in *.
  unfold bind at 1. unfold normalize_address. rewrite Haddr. cbn [ret].
  unfold bind at 1. unfold call at 1. rewrite Htip.
  unfold bind at 1. cbn [print_err emit].
  unfold bind at 1. cbn [world trace].
  rewrite topic_filter_trace. cbn [world trace].
  unfold bind at 1. unfold try_except, call. cbn [world trace]. rewrite Hlogs.
  unfold bind at 1. cbn [print_err emit world trace].
  unfold bind at 1.
  destruct (truncates max_logs received); cbn [print_err emit ret world trace];
    rewrite <- ?app_assoc; cbn [app]; reflexivity.
Qed.

Lemma filter_none {A : Type} (f : A -> bool) (l : list A) :
  Forall (fun x => f x = false) l -> List.filter f l = [].
Proof. induction 1 as [|x l Hx _ IH]; [reflexivity|]. cbn. now rewrite Hx. Qed.

Section FetchLogsFacts.
Context {World : Type} (node : Node World).
Variables (addr : string) (from_block to_block : Z) (topic0 : option string).
Variables (max_logs : Z) (r : Run World).
Variables (a : string) (latest : Z) (w1 w2 : World) (received : list RawLog).

Hypothesis address_ok : to_checksum_address node (Py.strip addr) = Some a.
Hypothesis tip_read : block_number node (world r) = (Some latest, w1).
Hypothesis batch_received :
  get_logs node (request_of a from_block to_block latest topic0) w1
  = (Some received, w2).

(** A successful call reaches the network exactly twice: it reads the tip
    once and then sends one request, the one for the clamped range. *)
Theorem fetch_logs_network_footprint :
  exists snap r' tr,
    fetch_logs node addr from_block to_block topic0 max_logs r = (Returned snap, r')
    /\ world r' = w2
    /\ trace r' = trace r ++ tr
    /\ List.filter is_network_access tr
       = [RpcBlockNumber; RpcGetLogs (request_of a from_block to_block latest topic0)].
Proof.
  do 3 eexists. split.
  { exact (fetch_logs_trace node addr from_block to_block topic0 max_logs r
             a latest w1 w2 received address_ok tip_read batch_received). }
  split; [reflexivity|]. split; [reflexivity|].
  unfold fetch_logs_events.
  destruct (topic0_warns topic0), (truncates max_logs received); reflexivity.
Qed.

(** The topic filter of the request is absent for no topic or an empty one
    and otherwise the stripped topic alone, whatever it looks like: a topic
    that is not 0x and 64 more characters only draws a warning.  The
    snapshot records the topic as it was given, not as it was sent. *)
Theorem topic_filter_sent_as_given :
  exists snap r' tr,
    fetch_logs node addr from_block to_block topic0 max_logs r = (Returned snap, r')
    /\ trace r' = trace r ++ tr
    /\ (forall p, In (RpcGetLogs p) tr ->
          topics_filter p
          = match topic0 with
            | None | Some EmptyString => None
            | Some t => Some [Py.strip t]
            end)
    /\ (In (Stderr MsgTopic0NotBytes32) tr <->
        exists t, topic0 = Some t /\ t <> EmptyString
                  /\ (Py.startswith (Py.strip t) "0x" = false
                      \/ String.length (Py.strip t) <> 66%nat))
    /\ topic0Filter (meta snap) = topic0.
Proof.
  do 3 eexists. split.
  { exact (fetch_logs_trace node addr from_block to_block topic0 max_logs r
             a latest w1 w2 received address_ok tip_read batch_received). }
  split; [reflexivity|]. split; [|split; [|reflexivity]].
  - intros p Hp. unfold fetch_logs_events in Hp.
    rewrite !in_app_iff in Hp. cbn [In] in Hp.
    assert (p = request_of a from_block to_block latest topic0) as ->.
    { destruct (topic0_warns topic0), (truncates max_logs received);
        cbn [In] in Hp; intuition (try discriminate; congruence). }
    unfold request_of, topic0_list. cbn [topics_filter].
    now destruct topic0 as [[|c t]|].
  - unfold fetch_logs_events. rewrite !in_app_iff. cbn [In].
    assert (topic0_warns topic0 = true <->
            exists t, topic0 = Some t /\ t <> EmptyString
                      /\ (Py.startswith (Py.strip t) "0x" = false
                          \/ String.length (Py.strip t) <> 66%nat)) as Hw.
    { unfold topic0_warns. destruct topic0 as [[|c t]|].
      - split; [discriminate | intros (t & [= <-] & Hne & _); now contradiction Hne].
      - rewrite orb_true_iff, !negb_true_iff, Nat.eqb_neq.
        split; [intros H; exists (String c t); auto with datatypes|].
        intros (t' & [= <-] & _ & H). exact H.
      - split; [discriminate | intros (t & [=] & _)]. }
    rewrite <- Hw.
    destruct (topic0_warns topic0), (truncates max_logs received);
      cbn [In]; intuition (try discriminate; congruence).
Qed.

(** Truncation is never silent: the warning is printed exactly when the
    limit is positive and exceeded, the count the node returned is printed
    in any case, and the snapshot records the limit. *)
Theorem truncation_is_reported :
  exists snap r' tr,
    fetch_logs node addr from_block to_block topic0 max_logs r = (Returned snap, r')
    /\ trace r' = trace r ++ tr
    /\ (In (Stderr (MsgTruncating (length received) max_logs)) tr <->
        max_logs > 0 /\ Z.of_nat (length received) > max_logs)
    /\ In (Stderr (MsgRpcReturned (length received))) tr
    /\ maxLogs (meta snap) = max_logs.
Proof.
  do 3 eexists. split.
  { exact (fetch_logs_trace node addr from_block to_block topic0 max_logs r
             a latest w1 w2 received address_ok tip_read batch_received). }
  split; [reflexivity|]. split; [|split; [|reflexivity]].
  - unfold fetch_logs_events. rewrite !in_app_iff. cbn [In].
    assert (truncates max_logs received = true <->
            max_logs > 0 /\ Z.of_nat (length received) > max_logs) as Ht.
    { unfold truncates. rewrite andb_true_iff.
      destruct (Z.gtb_spec max_logs 0),
        (Z.gtb_spec (Z.of_nat (length received)) max_logs);
        intuition (try discriminate; try lia). }
    rewrite <- Ht.
    destruct (topic0_warns topic0), (truncates max_logs received);
      cbn [In]; intuition (try discriminate; congruence).
  - unfold fetch_logs_events. rewrite !in_app_iff. cbn [In]. tauto.
Qed.
End FetchLogsFacts.

(** ** Counts, digest and effective range of a snapshot *)

Lemma remove_dups_length_le (l : list string) :
  (length (remove_dups l) <= length l)%nat.
Proof.
  induction l as [|x l IH]; [reflexivity|].
  cbn [remove_dups length]. destruct (decide_rel elem_of x l); cbn [length]; lia.
Qed.

Lemma bytes_of_lane_length (n : nat) (z : Z) :
  length (Keccak.bytes_of_lane n z) = n.
Proof.
  revert z. induction n as [|n IH]; intros z; [reflexivity|].
  cbn [Keccak.bytes_of_lane length]. now rewrite IH.
Qed.

(** The digest has 32 bytes whatever the message. *)
Lemma keccak256_length (msg : list byte) : length (Keccak.keccak256 msg) = 32%nat.
Proof.
  unfold Keccak.keccak256.
  set (st := Keccak.absorb _ _ _). clearbody st.
  cbn [seq flat_map]. rewrite !length_app, !bytes_of_lane_length. reflexivity.
Qed.

Lemma hexlify_length (bs : list byte) :
  String.length (Py.hexlify bs) = (2 * length bs)%nat.
Proof.
  induction bs as [|b bs IH]; [reflexivity|].
  cbn [Py.hexlify Py.hex_of_byte String.length length]. rewrite IH. lia.
Qed.

Section SnapshotFacts.
Context {World : Type} (node : Node World).
Variables (addr : string) (from_block to_block : Z) (topic0 : option string).
Variables (max_logs : Z) (r : Run World).
Variables (a : string) (latest : Z) (w1 w2 : World) (received : list RawLog).

Hypothesis address_ok : to_checksum_address node (Py.strip addr) = Some a.
Hypothesis tip_read : block_number node (world r) = (Some latest, w1).
Hypothesis batch_received :
  get_logs node (request_of a from_block to_block latest topic0) w1
  = (Some received, w2).

(** [logCount] is the length of [logs]; it exceeds neither the batch nor a
    positive limit, and [uniqueTxCount] lies between 0 and [logCount], being
    0 only for an empty snapshot. *)
Theorem snapshot_counts_bounded :
  exists snap r',
    fetch_logs node addr from_block to_block topic0 max_logs r = (Returned snap, r')
    /\ logCount (meta snap) = Z.of_nat (length (logs snap))
    /\ logCount (meta snap) <= Z.of_nat (length received)
    /\ (max_logs > 0 -> logCount (meta snap) <= max_logs)
    /\ 0 <= uniqueTxCount (meta snap) <= logCount (meta snap)
    /\ (uniqueTxCount (meta snap) = 0 <-> logCount (meta snap) = 0).
Proof.
  eexists; eexists. split.
  { exact (fetch_logs_trace node addr from_block to_block topic0 max_logs r
             a latest w1 w2 received address_ok tip_read batch_received). }
  unfold snapshot_of. cbn [meta logs logCount uniqueTxCount].
  rewrite scan_logs_map, scan_tx_set, size_list_to_set_distinct.
  rewrite sort_logs_length, length_map.
  set (retained := truncate max_logs received).
  assert (length retained <= length received)%nat as Hle.
  { subst retained. rewrite truncate_length.
    destruct (truncates max_logs received) eqn:E; [|lia].
    unfold truncates in E. apply andb_true_iff in E as [_ E]. lia. }
  assert (max_logs > 0 -> Z.of_nat (length retained) <= max_logs) as Hmax.
  { intros Hpos. subst retained. rewrite truncate_length.
    destruct (truncates max_logs received) eqn:E; [lia|].
    unfold truncates in E. apply andb_false_iff in E as [E|E]; lia. }
  pose proof (remove_dups_length_le (map transactionHash (map normalize retained)))
    as Hd.
  rewrite !length_map in Hd.
  split; [reflexivity|]. split; [lia|]. split; [exact Hmax|]. split; [lia|].
  split.
  - intros H0. destruct retained as [|lg rest]; [reflexivity|].
    exfalso. cbn [map remove_dups] in H0.
    destruct (decide_rel elem_of _ _) as [Hin|Hin] in H0.
    + apply elem_of_remove_dups in Hin.
      destruct (remove_dups (map transactionHash (map normalize rest)));
        [now apply elem_of_nil in Hin | discriminate].
    + discriminate.
  - intros H0. destruct retained; [reflexivity | discriminate].
Qed.

(** The requested range of the snapshot starts at the smaller bound; it is
    in order exactly when that bound is not beyond the tip.  Otherwise the
    cut at the tip, which comes after the swap, leaves it inverted. *)
Theorem requested_range_ordered_iff :
  exists snap r',
    fetch_logs node addr from_block to_block topic0 max_logs r = (Returned snap, r')
    /\ fromBlockRequested (meta snap) = Z.min from_block to_block
    /\ toBlockRequested (meta snap) = Z.min (Z.max from_block to_block) latest
    /\ (fromBlockRequested (meta snap) <= toBlockRequested (meta snap)
        <-> Z.min from_block to_block <= latest).
Proof.
  eexists; eexists. split.
  { exact (fetch_logs_trace node addr from_block to_block topic0 max_logs r
             a latest w1 w2 received address_ok tip_read batch_received). }
  unfold snapshot_of. cbn [meta fromBlockRequested toBlockRequested].
  rewrite clamp_range_spec. cbn [fst snd].
  split; [reflexivity|]. split; [reflexivity|]. lia.
Qed.

(** The commitment is 64 lowercase hex digits, after 0x where the installed
    [hexbytes] prefixes its rendering. *)
Theorem commitment_is_hex_digest :
  exists snap r' digits,
    fetch_logs node addr from_block to_block topic0 max_logs r = (Returned snap, r')
    /\ commitmentKeccak (meta snap)
       = (if hexbytes_prefixed node then "0x" else EmptyString) +:+ digits
    /\ String.length digits = 64%nat
    /\ all_chars is_lower_hex_char digits = true.
Proof.
  do 3 eexists. split.
  { exact (fetch_logs_trace node addr from_block to_block topic0 max_logs r
             a latest w1 w2 received address_ok tip_read batch_received). }
  unfold snapshot_of. cbn [meta commitmentKeccak].
  unfold commitment, Py.HexBytes_hex.
  split; [destruct (hexbytes_prefixed node); reflexivity|].
  split; [now rewrite hexlify_length, keccak256_length | apply hexlify_lower].
Qed.
End SnapshotFacts.
(** ** How [fetch_logs] fails *)

Lemma fetch_logs_invalid_address {World : Type} (node : Node World)
    (addr : string) (from_block to_block : Z) (topic0 : option string)
    (max_logs : Z) (r : Run World) :
  to_checksum_address node (Py.strip addr) = None ->
  fetch_logs node addr from_block to_block topic0 max_logs r
  = (Raised (ValueError addr), r).
Proof.
  intros H. unfold fetch_logs.
  destruct (swap_inverted from_block to_block) as [f t].
  unfold bind at 1. unfold normalize_address. now rewrite H.
Qed.

(** An address the validator rejects makes [fetch_logs] raise [ValueError]
    with the address as it was passed, before anything reaches the network
    or stderr: the run is left as it was. *)
Theorem fetch_logs_rejects_address_first {World : Type} (node : Node World)
    (addr : string) (from_block to_block : Z) (topic0 : option string)
    (max_logs : Z) (r : Run World) :
  to_checksum_address node (Py.strip addr) = None ->
  fetch_logs node addr from_block to_block topic0 max_logs r
  = (Raised (ValueError addr), r).
Proof. apply fetch_logs_invalid_address. Qed.

Lemma fetch_logs_rejects_address_first_witness :
  to_checksum_address (scripted_node true (Some 1) (Some 500) (Some demo_batch)
                         (fun _ => None)) (Py.strip "not an address") = None
  /\ fetch_logs (scripted_node true (Some 1) (Some 500) (Some demo_batch)
                   (fun _ => None)) "not an address" 10 600 None 0 (start tt)
     = (Raised (ValueError "not an address"), start tt).
Proof.
  split; [reflexivity|].
  apply (fetch_logs_rejects_address_first
           (scripted_node true (Some 1) (Some 500) (Some demo_batch) (fun _ => None))
           "not an address" 10 600 None 0 (start tt)).
  reflexivity.
Defined.

(** When reading the tip fails, the exception leaves [fetch_logs] as it is:
    nothing is printed and no request is sent. *)
Theorem fetch_logs_tip_failure_propagates {World : Type} (node : Node World)
    (addr : string) (from_block to_block : Z) (topic0 : option string)
    (max_logs : Z) (r : Run World) (a : string) (w1 : World) :
  to_checksum_address node (Py.strip addr) = Some a ->
  block_number node (world r) = (None, w1) ->
  fetch_logs node addr from_block to_block topic0 max_logs r
  = (Raised RpcError, mkRun w1 (trace r ++ [RpcBlockNumber])).
Proof.
  intros Haddr Htip. unfold fetch_logs.
  destruct (swap_inverted from_block to_block) as [f t].
  unfold bind at 1. unfold normalize_address. rewrite Haddr. cbn [ret].
  unfold bind at 1. unfold call at 1. now rewrite Htip.
Qed.

Lemma fetch_logs_tip_failure_propagates_witness :
  to_checksum_address (scripted_node true (Some 1) None (Some demo_batch) Some)
    (Py.strip "0xabc") = Some "0xabc"
  /\ block_number (scripted_node true (Some 1) None (Some demo_batch) Some)
       (world (start tt)) = (None, tt)
  /\ fetch_logs (scripted_node true (Some 1) None (Some demo_batch) Some)
       "0xabc" 10 600 None 0 (start tt)
     = (Raised RpcError, mkRun tt (trace (start tt) ++ [RpcBlockNumber])).
Proof.
  split; [reflexivity|]. split; [reflexivity|].
  apply (fetch_logs_tip_failure_propagates
           (scripted_node true (Some 1) None (Some demo_batch) Some)
           "0xabc" 10 600 None 0 (start tt) "0xabc" tt); reflexivity.
Defined.

(** When the request fails, the exception does not leave [fetch_logs]: the
    failure is printed and the run exits with status 1, after the one tip
    reading and the one request. *)
Theorem fetch_logs_request_failure_exits {World : Type} (node : Node World)
    (addr : string) (from_block to_block : Z) (topic0 : option string)
    (max_logs : Z) (r : Run World) (a : string) (latest : Z) (w1 w2 : World) :
  to_checksum_address node (Py.strip addr) = Some a ->
  block_number node (world r) = (Some latest, w1) ->
  get_logs node (request_of a from_block to_block latest topic0) w1 = (None, w2) ->
  exists tr,
    fetch_logs node addr from_block to_block topic0 max_logs r
    = (Exited 1, mkRun w2 (trace r ++ tr ++ [Stderr MsgFetchFailed]))
    /\ List.filter is_network_access tr
       = [RpcBlockNumber; RpcGetLogs (request_of a from_block to_block latest topic0)].
Proof.
  intros Haddr Htip Hlogs.
  unfold request_of, clamp_range in *. unfold fetch_logs.
  destruct (swap_inverted from_block to_block) as [f t]. cbn [fst snd] in *.
  unfold bind at 1. unfold normalize_address. rewrite Haddr. cbn [ret].
  unfold bind at 1. unfold call at 1. rewrite Htip.
  unfold bind at 1. cbn [print_err emit].
  unfold bind at 1. cbn [world trace].
  rewrite topic_filter_trace. cbn [world trace].
  unfold bind at 1. unfold try_except, call. cbn [world trace]. rewrite Hlogs.
  unfold bind at 1. cbn [print_err emit sys_exit world trace].
  exists ([RpcBlockNumber; Stderr (MsgFetching a f (Z.min t latest))]
          ++ (if topic0_warns topic0 then [Stderr MsgTopic0NotBytes32] else [])
          ++ [RpcGetLogs {| fromBlock := f; toBlock := Z.min t latest;
                            address := a; topics_filter := topic0_list topic0 |}]).
  split.
  - do 2 f_equal. rewrite <- !app_assoc. reflexivity.
  - destruct (topic0_warns topic0); reflexivity.
Qed.

Lemma fetch_logs_request_failure_exits_witness :
  exists tr,
    fetch_logs (fixed_node 500 None) "0xabc" 10 600 None 0 (start tt)
    = (Exited 1, mkRun tt (trace (start tt) ++ tr ++ [Stderr MsgFetchFailed]))
    /\ List.filter is_network_access tr
       = [RpcBlockNumber; RpcGetLogs (request_of "0xabc" 10 600 500 None)].
Proof.
  exact (fetch_logs_request_failure_exits (fixed_node 500 None)
           "0xabc" 10 600 None 0 (start tt) "0xabc" 500 tt tt
           eq_refl eq_refl eq_refl).
Defined.

(** ** [connect] and [normalize_address] *)

(** [connect] returns exactly when the endpoint answers the connectivity
    check, which is the first thing it asks; otherwise it prints the failure
    and exits with status 1 without asking anything else.  Once connected it
    cannot fail: a chain id or a tip that cannot be read only changes the
    line it prints last. *)
Theorem connect_returns_iff_connected {World : Type} (node : Node World)
    (rpc : string) (r : Run World) (up : bool) (w1 : World) :
  is_connected node rpc (world r) = (up, w1) ->
  exists r' tr,
    connect node rpc r = (if up then Returned tt else Exited 1, r')
    /\ trace r' = trace r ++ RpcIsConnected rpc :: tr
    /\ (up = false -> world r' = w1 /\ tr = [Stderr (MsgConnectFailed rpc)])
    /\ (up = true ->
        exists tr0 m, tr = tr0 ++ [Stderr m]
          /\ (m = MsgConnectedNoChainInfo
              \/ exists cid tip, m = MsgConnected (network_name cid) cid tip)).
Proof.
  intros Hup. unfold connect, bind at 1, call at 1. rewrite Hup.
  destruct up; cbn [negb].
  - unfold try_except, bind, call. cbn [world trace].
    destruct (chain_id node w1) as [[cid|] w2]; cbn [world trace].
    + destruct (block_number node w2) as [[tip|] w3];
        cbn [world trace print_err emit].
      * do 2 eexists. split; [reflexivity|]. cbn [trace].
        split; [rewrite <- !app_assoc; reflexivity|].
        split; [discriminate|]. intros _.
        exists [RpcChainId; RpcBlockNumber]. eexists. split; [reflexivity|].
        right. now exists cid, tip.
      * do 2 eexists. split; [reflexivity|]. cbn [trace].
        split; [rewrite <- !app_assoc; reflexivity|].
        split; [discriminate|]. intros _.
        exists [RpcChainId; RpcBlockNumber]. eexists. split; [reflexivity|]. now left.
    + cbn [world trace print_err emit].
      do 2 eexists. split; [reflexivity|]. cbn [trace].
      split; [rewrite <- !app_assoc; reflexivity|].
      split; [discriminate|]. intros _.
      exists [RpcChainId]. eexists. split; [reflexivity|]. now left.
  - unfold bind, print_err, emit, sys_exit. cbn [world trace].
    do 2 eexists. split; [reflexivity|]. cbn [trace world].
    split; [rewrite <- !app_assoc; reflexivity|].
    split; [intros _; split; reflexivity | discriminate].
Qed.

Lemma connect_returns_iff_connected_witness :
  exists r' tr,
    connect (scripted_node true None (Some 500) None Some) "http://localhost:8545"
      (start tt)
    = (if true then Returned tt else Exited 1, r')
    /\ trace r' = trace (start tt) ++ RpcIsConnected "http://localhost:8545" :: tr
    /\ (true = false ->
        world r' = tt /\ tr = [Stderr (MsgConnectFailed "http://localhost:8545")])
    /\ (true = true ->
        exists tr0 m, tr = tr0 ++ [Stderr m]
          /\ (m = MsgConnectedNoChainInfo
              \/ exists cid tip, m = MsgConnected (network_name cid) cid tip)).
Proof.
  exact (connect_returns_iff_connected
           (scripted_node true None (Some 500) None Some) "http://localhost:8545"
           (start tt) true tt eq_refl).
Defined.

Lemma lstrip_head (s : string) :
  match Py.lstrip s with
  | String c _ => Py.is_space c = false
  | EmptyString => True
  end.
Proof.
  induction s as [|c s IH]; [exact I|].
  cbn [Py.lstrip]. destruct (Py.is_space c) eqn:E; [exact IH | exact E].
Qed.

Lemma lstrip_id (s : string) :
  match s with
  | String c _ => Py.is_space c = false
  | EmptyString => True
  end -> Py.lstrip s = s.
Proof. destruct s as [|c s]; [reflexivity|]. cbn [Py.lstrip]. now intros ->. Qed.

Lemma rstrip_head (s : string) :
  match s with
  | String c _ => Py.is_space c = false
  | EmptyString => True
  end ->
  match Py.rstrip s with
  | String c _ => Py.is_space c = false
  | EmptyString => True
  end.
Proof.
  destruct s as [|c s]; [intros _; exact I|]. intros Hc.
  cbn [Py.rstrip]. destruct (Py.rstrip s); [rewrite Hc|]; exact Hc.
Qed.

Lemma rstrip_idempotent (s : string) : Py.rstrip (Py.rstrip s) = Py.rstrip s.
Proof.
  induction s as [|c s IH]; [reflexivity|].
  cbn [Py.rstrip]. destruct (Py.rstrip s) as [|d t] eqn:E.
  - destruct (Py.is_space c) eqn:Hc; [reflexivity|].
    cbn [Py.rstrip]. now rewrite Hc.
  - assert (Py.rstrip (String c (String d t))
            = match Py.rstrip (String d t) with
              | EmptyString =>
                  if Py.is_space c then EmptyString else String c EmptyString
              | String a0 s0 => String c (String a0 s0)
              end) as -> by reflexivity.
    now rewrite IH.
Qed.

(** [str.strip] leaves a stripped string as it is. *)
Lemma strip_idempotent (s : string) : Py.strip (Py.strip s) = Py.strip s.
Proof.
  unfold Py.strip.
  rewrite (lstrip_id (Py.rstrip (Py.lstrip s)))
    by apply rstrip_head, lstrip_head.
  apply rstrip_idempotent.
Qed.

(** [normalize_address] validates the stripped address and touches neither
    the node nor the trace.  On success the result is the same for the
    address and for its stripped form; on failure the [ValueError] carries
    the address as it was passed, padding included. *)
Theorem normalize_address_ignores_padding {World : Type} (node : Node World)
    (addr : string) (r : Run World) :
  (exists a,
     to_checksum_address node (Py.strip addr) = Some a
     /\ normalize_address node addr r = (Returned a, r)
     /\ normalize_address node (Py.strip addr) r = (Returned a, r))
  \/ (to_checksum_address node (Py.strip addr) = None
      /\ normalize_address node addr r = (Raised (ValueError addr), r)
      /\ normalize_address node (Py.strip addr) r
         = (Raised (ValueError (Py.strip addr)), r)).
Proof.
  unfold normalize_address. rewrite strip_idempotent.
  destruct (to_checksum_address node (Py.strip addr)) as [a|].
  - left. exists a. repeat split.
  - right. repeat split.
Qed.

(** ** Runs of [main] *)

Lemma bind_returned {World A B : Type} (m : Prog World A) (k : A -> Prog World B)
    (r r' : Run World) (x : A) :
  m r = (Returned x, r') -> bind m k r = k x r'.
Proof. intros H. unfold bind. now rewrite H. Qed.

Lemma bind_exited {World A B : Type} (m : Prog World A) (k : A -> Prog World B)
    (r r' : Run World) (code : Z) :
  m r = (Exited code, r') -> bind m k r = (Exited code, r').
Proof. intros H. unfold bind. now rewrite H. Qed.

Lemma bind_raised {World A B : Type} (m : Prog World A) (k : A -> Prog World B)
    (r r' : Run World) (e : exception) :
  m r = (Raised e, r') -> bind m k r = (Raised e, r').
Proof. intros H. unfold bind. now rewrite H. Qed.

Lemma key_warning_run {World : Type} (DEFAULT_RPC : string) (r : Run World) :
  (if Py.contains DEFAULT_RPC "your_api_key"
   then print_err MsgPlaceholderKey else ret tt) r
  = (Returned tt, after_key_warning DEFAULT_RPC r).
Proof.
  unfold after_key_warning. destruct (Py.contains _ _); [reflexivity|].
  destruct r. cbn. now rewrite app_nil_r.
Qed.

(** When the endpoint does not answer the connectivity check, [main] exits
    with status 1 right after it: the tip is not read, no request is sent
    and nothing is written to stdout. *)
Theorem main_exits_when_not_connected {World : Type} (node : Node World)
    (DEFAULT_RPC : string) (args : Args) (r : Run World) (w1 : World) :
  arg_blocks args > 0 ->
  is_connected node (arg_rpc args) (world r) = (false, w1) ->
  main node DEFAULT_RPC args r
  = (Exited 1,
     mkRun w1
       (trace (after_key_warning DEFAULT_RPC r)
        ++ [RpcIsConnected (arg_rpc args); Stderr (MsgConnectFailed (arg_rpc args))])).
Proof.
  intros Hb Hup. unfold main.
  rewrite (bind_returned _ _ _ _ _ (key_warning_run DEFAULT_RPC r)).
  destruct (Z.leb_spec (arg_blocks args) 0) as [|_]; [lia|].
  apply bind_exited.
  unfold connect, bind at 1, call at 1.
  change (world (after_key_warning DEFAULT_RPC r)) with (world r).
  rewrite Hup. cbn [negb]. unfold bind, print_err, emit, sys_exit.
  cbn [world trace]. now rewrite <- app_assoc.
Qed.

Lemma main_exits_when_not_connected_witness :
  arg_blocks demo_args > 0
  /\ main (scripted_node false None None None Some) "http://node" demo_args (start tt)
     = (Exited 1,
        mkRun tt
          (trace (after_key_warning "http://node" (start tt))
           ++ [RpcIsConnected (arg_rpc demo_args);
               Stderr (MsgConnectFailed (arg_rpc demo_args))])).
Proof.
  split; [reflexivity|].
  apply (main_exits_when_not_connected (scripted_node false None None None Some)
           "http://node" demo_args (start tt) tt); reflexivity.
Defined.

(** [main] validates the address only inside [fetch_logs]: with an address
    the validator rejects, the run connects, reads the tip and prints the
    resolved range before it raises [ValueError]; no request is sent. *)
Theorem main_rejects_address_after_connecting {World : Type} (node : Node World)
    (DEFAULT_RPC : string) (args : Args) (r r1 : Run World) (tip : Z) (w2 : World) :
  arg_blocks args > 0 ->
  connect node (arg_rpc args) (after_key_warning DEFAULT_RPC r) = (Returned tt, r1) ->
  block_number node (world r1) = (Some tip, w2) ->
  to_checksum_address node (Py.strip (arg_address args)) = None ->
  let range := resolve_range (arg_from_block args) (arg_to_block args)
                 (arg_blocks args) tip in
  main node DEFAULT_RPC args r
  = (Raised (ValueError (arg_address args)),
     mkRun w2
       (trace r1
        ++ [RpcBlockNumber; Stderr MsgBanner; Stderr (MsgUsingRpc (arg_rpc args));
            Stderr (MsgRangeResolved (fst range) (snd range) tip)])).
Proof.
  intros Hb Hconn Htip Haddr range. unfold main.
  rewrite (bind_returned _ _ _ _ _ (key_warning_run DEFAULT_RPC r)).
  destruct (Z.leb_spec (arg_blocks args) 0) as [|_]; [lia|].
  rewrite (bind_returned _ _ _ _ _ Hconn).
  unfold bind at 1, call at 1. rewrite Htip.
  fold range. destruct range as [f t]. cbn [fst snd].
  unfold bind at 1, print_err at 1, emit at 1.
  unfold bind at 1, print_err at 1, emit at 1.
  unfold bind at 1, print_err at 1, emit at 1.
  cbn [world trace].
  apply bind_raised.
  rewrite fetch_logs_invalid_address by exact Haddr.
  rewrite <- !app_assoc. reflexivity.
Qed.

Lemma main_rejects_address_after_connecting_witness :
  let node := scripted_node true (Some 1) (Some 500) (Some demo_batch) (fun _ => None) in
  arg_blocks demo_args > 0
  /\ let range := resolve_range (arg_from_block demo_args) (arg_to_block demo_args)
                    (arg_blocks demo_args) 500 in
     main node "http://node" demo_args (start tt)
     = (Raised (ValueError (arg_address demo_args)),
        mkRun tt
          (trace (mkRun tt [RpcIsConnected (arg_rpc demo_args); RpcChainId;
                            RpcBlockNumber;
                            Stderr (MsgConnected (network_name 1) 1 500)])
           ++ [RpcBlockNumber; Stderr MsgBanner;
               Stderr (MsgUsingRpc (arg_rpc demo_args));
               Stderr (MsgRangeResolved (fst range) (snd range) 500)])).
Proof.
  intros node. split; [reflexivity|].
  apply (main_rejects_address_after_connecting node "http://node" demo_args
           (start tt)
           (mkRun tt [RpcIsConnected (arg_rpc demo_args); RpcChainId; RpcBlockNumber;
                      Stderr (MsgConnected (network_name 1) 1 500)])
           500 tt); reflexivity.
Defined.

(** On a run where every call succeeds, [main] writes one payload to stdout,
    as its last action.  The payload holds the snapshot of the batch for the
    range resolved against the tip [main] read, cut at the tip [fetch_logs]
    read afterwards; it does not depend on [--no-human], which only adds
    lines on stderr.  After [connect] the run reads the tip twice, sends one
    request and asks for the chain id. *)
Theorem main_prints_snapshot_of_resolved_range {World : Type} (node : Node World)
    (DEFAULT_RPC : string) (args : Args) (r r1 : Run World) (tip latest cid : Z)
    (a : string) (w2 w3 w4 w5 : World) (received : list RawLog) :
  arg_blocks args > 0 ->
  connect node (arg_rpc args) (after_key_warning DEFAULT_RPC r) = (Returned tt, r1) ->
  block_number node (world r1) = (Some tip, w2) ->
  to_checksum_address node (Py.strip (arg_address args)) = Some a ->
  block_number node w2 = (Some latest, w3) ->
  let range := resolve_range (arg_from_block args) (arg_to_block args)
                 (arg_blocks args) tip in
  let request := request_of a (fst range) (snd range) latest (arg_topic0 args) in
  get_logs node request w3 = (Some received, w4) ->
  chain_id node w4 = (Some cid, w5) ->
  exists tr,
    main node DEFAULT_RPC args r
    = (Returned tt,
       mkRun w5
         (trace r1 ++ tr
          ++ [Stdout (arg_pretty args)
                {| mode := "zk_bridge_events_snapshot";
                   network := network_name cid;
                   chainId := cid;
                   bridgeAddress := a;
                   payload_data :=
                     snapshot_of (hexbytes_prefixed node)
                       (fromBlock request) (toBlock request)
                       (arg_topic0 args) (arg_max_logs args)
                       (truncate (arg_max_logs args) received) |}]))
    /\ Forall (fun e => is_stdout e = false) tr
    /\ List.filter is_network_access tr
       = [RpcBlockNumber; RpcBlockNumber; RpcGetLogs request; RpcChainId].
Proof.
  intros Hb Hconn Htip Haddr Hlatest range request Hlogs Hcid. unfold main.
  rewrite (bind_returned _ _ _ _ _ (key_warning_run DEFAULT_RPC r)).
  destruct (Z.leb_spec (arg_blocks args) 0) as [|_]; [lia|].
  rewrite (bind_returned _ _ _ _ _ Hconn).
  unfold bind at 1, call at 1. rewrite Htip.
  subst request. fold range. fold range in Hlogs.
  destruct range as [f t]. cbn [fst snd] in *.
  unfold bind at 1, print_err at 1, emit at 1.
  unfold bind at 1, print_err at 1, emit at 1.
  unfold bind at 1, print_err at 1, emit at 1.
  cbn [world trace].
  erewrite bind_returned
    by (apply (fetch_logs_trace node (arg_address args) f t (arg_topic0 args)
                 (arg_max_logs args) _ a latest w3 w4 received Haddr);
        [exact Hlatest | exact Hlogs]).
  unfold bind at 1, call at 1. cbn [world trace]. rewrite Hcid.
  unfold bind at 1, normalize_address. rewrite Haddr. cbn [ret].
  set (snap := snapshot_of _ _ _ _ _ _).
  exists ([RpcBlockNumber; Stderr MsgBanner; Stderr (MsgUsingRpc (arg_rpc args));
           Stderr (MsgRangeResolved f t tip)]
          ++ fetch_logs_events a f t latest (arg_topic0 args) (arg_max_logs args)
               received
          ++ [RpcChainId]
          ++ (if arg_no_human args then []
              else [Stderr (MsgNetworkSummary (network_name cid) cid a);
                    Stderr (MsgLogsSummary (meta snap)); Stderr MsgTotalElapsed;
                    Stderr MsgCommitmentHint])).
  split; [|split].
  - destruct (arg_no_human args); cbn [negb];
      unfold bind, print_err, emit, ret; cbn [world trace network chainId bridgeAddress];
      do 2 f_equal; rewrite <- !app_assoc; reflexivity.
  - unfold fetch_logs_events.
    destruct (arg_no_human args), (topic0_warns (arg_topic0 args)),
      (truncates (arg_max_logs args) received); repeat constructor.
  - unfold fetch_logs_events.
    destruct (arg_no_human args), (topic0_warns (arg_topic0 args)),
      (truncates (arg_max_logs args) received); reflexivity.
Qed.

Lemma main_prints_snapshot_of_resolved_range_witness :
  let node := fixed_node 500 (Some demo_batch) in
  let range := resolve_range (arg_from_block demo_args) (arg_to_block demo_args)
                 (arg_blocks demo_args) 500 in
  let request := request_of "0xabc" (fst range) (snd range) 500 (arg_topic0 demo_args) in
  arg_blocks demo_args > 0
  /\ exists tr,
       main node "http://node" demo_args (start tt)
       = (Returned tt,
          mkRun tt
            (trace (mkRun tt [RpcIsConnected (arg_rpc demo_args); RpcChainId;
                              RpcBlockNumber;
                              Stderr (MsgConnected (network_name 1) 1 500)])
             ++ tr
             ++ [Stdout (arg_pretty demo_args)
                   {| mode := "zk_bridge_events_snapshot";
                      network := network_name 1;
                      chainId := 1;
                      bridgeAddress := "0xabc";
                      payload_data :=
                        snapshot_of (hexbytes_prefixed node)
                          (fromBlock request) (toBlock request)
                          (arg_topic0 demo_args) (arg_max_logs demo_args)
                          (truncate (arg_max_logs demo_args) demo_batch) |}]))
       /\ Forall (fun e => is_stdout e = false) tr
       /\ List.filter is_network_access tr
          = [RpcBlockNumber; RpcBlockNumber; RpcGetLogs request; RpcChainId].
Proof.
  intros node range request. split; [reflexivity|].
  exact (main_prints_snapshot_of_resolved_range node "http://node" demo_args
           (start tt)
           (mkRun tt [RpcIsConnected (arg_rpc demo_args); RpcChainId; RpcBlockNumber;
                      Stderr (MsgConnected (network_name 1) 1 500)])
           500 500 1 "0xabc" tt tt tt tt demo_batch
           eq_refl eq_refl eq_refl eq_refl eq_refl eq_refl eq_refl).
Defined.

(** ** What every run adds to the trace *)

Section Growth.
Context {World : Type} (Q : event -> Prop).

Lemma grows_ret {A : Type} (x : A) : grows (World := World) Q (ret x).
Proof.
  intros r o r' [= <- <-]. exists []. split; [now rewrite app_nil_r | constructor].
Qed.

Lemma grows_exit {A : Type} (code : Z) : grows (World := World) (A := A) Q (sys_exit code).
Proof.
  intros r o r' [= <- <-]. exists []. split; [now rewrite app_nil_r | constructor].
Qed.

Lemma grows_raise {A : Type} (e : exception) : grows (World := World) (A := A) Q (raise e).
Proof.
  intros r o r' [= <- <-]. exists []. split; [now rewrite app_nil_r | constructor].
Qed.

Lemma grows_emit (e : event) : Q e -> grows (World := World) Q (emit e).
Proof.
  intros He r o r' [= <- <-]. exists [e]. split; [reflexivity | now constructor].
Qed.

Lemma grows_call {A : Type} (e : event) (f : World -> option A * World) :
  Q e -> grows Q (call e f).
Proof.
  intros He r o r'. unfold call. destruct (f (world r)) as [[x|] w'];
    intros [= <- <-]; exists [e]; (split; [reflexivity | now constructor]).
Qed.

Lemma grows_bind {A B : Type} (m : Prog World A) (k : A -> Prog World B) :
  grows Q m -> (forall x, grows Q (k x)) -> grows Q (bind m k).
Proof.
  intros Hm Hk r o r'. unfold bind.
  destruct (m r) as [[x|code|e] r1] eqn:E; specialize (Hm _ _ _ E) as (tr1 & E1 & H1).
  - intros Hkx. specialize (Hk _ _ _ _ Hkx) as (tr2 & E2 & H2).
    exists (tr1 ++ tr2). split; [now rewrite E2, E1, app_assoc | now apply Forall_app].
  - intros [= <- <-]. now exists tr1.
  - intros [= <- <-]. now exists tr1.
Qed.

Lemma grows_try {A : Type} (m : Prog World A) (h : exception -> Prog World A) :
  grows Q m -> (forall e, grows Q (h e)) -> grows Q (try_except m h).
Proof.
  intros Hm Hh r o r'. unfold try_except.
  destruct (m r) as [[x|code|e] r1] eqn:E; specialize (Hm _ _ _ E) as (tr1 & E1 & H1).
  - intros [= <- <-]. now exists tr1.
  - intros [= <- <-]. now exists tr1.
  - intros Hhe. specialize (Hh _ _ _ _ Hhe) as (tr2 & E2 & H2).
    exists (tr1 ++ tr2). split; [now rewrite E2, E1, app_assoc | now apply Forall_app].
Qed.

Context (L : event -> Prop).

Lemma finishes_emit (e : event) : L e -> finishes (World := World) Q L (emit e).
Proof.
  intros He r o r' [= <- <-]. exists [e]. split; [reflexivity|].
  exists [], e. repeat split; [constructor | exact He].
Qed.

Lemma finishes_exit {A : Type} (code : Z) :
  finishes (World := World) (A := A) Q L (sys_exit code).
Proof.
  intros r o r' [= <- <-]. exists []. split; [now rewrite app_nil_r | constructor].
Qed.

Lemma finishes_bind {A B : Type} (m : Prog World A) (k : A -> Prog World B) :
  grows Q m -> (forall x, finishes Q L (k x)) -> finishes Q L (bind m k).
Proof.
  intros Hm Hk r o r'. unfold bind.
  destruct (m r) as [[x|code|e] r1] eqn:E; specialize (Hm _ _ _ E) as (tr1 & E1 & H1).
  - intros Hkx. specialize (Hk _ _ _ _ Hkx) as (tr2 & E2 & H2).
    exists (tr1 ++ tr2). split; [now rewrite E2, E1, app_assoc|].
    destruct o as [y|code|e].
    + destruct H2 as (tr0 & e & -> & H0 & He).
      exists (tr1 ++ tr0), e. split; [now rewrite app_assoc|].
      split; [now apply Forall_app | exact He].
    + now apply Forall_app.
    + now apply Forall_app.
  - intros [= <- <-]. now exists tr1.
  - intros [= <- <-]. now exists tr1.
Qed.
End Growth.

Ltac grows_step :=
  lazymatch goal with
  | |- grows _ (bind _ _) => apply grows_bind; [|intros ?]
  | |- grows _ (try_except _ _) => apply grows_try; [|intros ?]
  | |- grows _ (ret _) => apply grows_ret
  | |- grows _ (sys_exit _) => apply grows_exit
  | |- grows _ (raise _) => apply grows_raise
  | |- grows _ (print_err _) => apply grows_emit
  | |- grows _ (emit _) => apply grows_emit
  | |- grows _ (call _ _) => apply grows_call
  | |- grows _ (if ?b then _ else _) => destruct b
  | |- grows _ (match ?x with _ => _ end) => destruct x
  end.

Section Discipline.
Context {World : Type} (node : Node World).

(** The events of [connect] and [fetch_logs]: stderr lines and calls, of
    which [connect] never sends a request for logs and [fetch_logs] only
    reads the tip and sends requests. *)
Lemma connect_grows (rpc : string) :
  grows (fun e => is_stdout e = false /\ forall p, e <> RpcGetLogs p)
    (connect node rpc).
Proof. unfold connect. repeat grows_step; (split; [reflexivity | discriminate]). Qed.

Lemma normalize_address_grows (Q : event -> Prop) (addr : string) :
  grows Q (normalize_address node addr).
Proof. unfold normalize_address. repeat grows_step. Qed.

Lemma fetch_logs_grows (addr : string) (from_block to_block : Z)
    (topic0 : option string) (max_logs : Z) :
  grows (fun e => is_stdout e = false
                  /\ (is_network_access e = true ->
                      e = RpcBlockNumber \/ exists p, e = RpcGetLogs p))
    (fetch_logs node addr from_block to_block topic0 max_logs).
Proof.
  unfold fetch_logs. destruct (swap_inverted from_block to_block) as [f t].
  apply grows_bind; [apply normalize_address_grows | intros a].
  unfold topic_filter.
  repeat grows_step;
    (split; [reflexivity | first [discriminate | intros _; eauto]]).
Qed.

(** Whatever the node answers, [fetch_logs] writes nothing to stdout, and
    it reaches the network only to read the tip and to send requests for
    logs: it never asks for the chain id or for connectivity. *)
Theorem fetch_logs_network_discipline (addr : string) (from_block to_block : Z)
    (topic0 : option string) (max_logs : Z) (r r' : Run World)
    (o : outcome Snapshot) :
  fetch_logs node addr from_block to_block topic0 max_logs r = (o, r') ->
  exists tr,
    trace r' = trace r ++ tr
    /\ Forall (fun e => is_stdout e = false
                        /\ (is_network_access e = true ->
                            e = RpcBlockNumber \/ exists p, e = RpcGetLogs p)) tr.
Proof. apply fetch_logs_grows. Qed.

(** Whatever the node answers and however the run ends, [main] keeps what
    was in the trace and writes to stdout at most once: when it returns,
    the payload is the last thing it did; when it exits or raises, stdout
    has stayed empty. *)
Theorem main_stdout_discipline (DEFAULT_RPC : string) (args : Args)
    (r r' : Run World) (o : outcome unit) :
  main node DEFAULT_RPC args r = (o, r') ->
  exists tr,
    trace r' = trace r ++ tr
    /\ match o with
       | Returned _ =>
           exists tr0 e, tr = tr0 ++ [e]
             /\ Forall (fun e => is_stdout e = false) tr0
             /\ exists p, e = Stdout (arg_pretty args) p
       | _ => Forall (fun e => is_stdout e = false) tr
       end.
Proof.
  revert r o r'.
  change (finishes (fun e => is_stdout e = false)
            (fun e => exists p, e = Stdout (arg_pretty args) p)
            (main node DEFAULT_RPC args)).
  unfold main.
  apply finishes_bind; [repeat grows_step; reflexivity | intros _].
  destruct (arg_blocks args <=? 0).
  { apply finishes_bind; [repeat grows_step; reflexivity | intros _].
    apply finishes_exit. }
  apply finishes_bind.
  { intros r o r' H. destruct (connect_grows _ _ _ _ H) as (tr & E & Htr).
    exists tr. split; [exact E|]. eapply List.Forall_impl; [|exact Htr].
    now intros e [He _]. }
  intros _.
  apply finishes_bind; [repeat grows_step; reflexivity | intros tip].
  destruct (resolve_range _ _ _ _) as [f t].
  do 3 (apply finishes_bind; [repeat grows_step; reflexivity | intros _]).
  apply finishes_bind.
  { intros r o r' H. destruct (fetch_logs_grows _ _ _ _ _ _ _ _ H) as (tr & E & Htr).
    exists tr. split; [exact E|]. eapply List.Forall_impl; [|exact Htr].
    now intros e [He _]. }
  intros snap.
  apply finishes_bind; [repeat grows_step; reflexivity | intros cid].
  apply finishes_bind; [apply normalize_address_grows | intros bridge].
  apply finishes_bind; [repeat grows_step; reflexivity | intros _].
  apply finishes_emit. eauto.
Qed.
End Discipline.

Lemma fetch_logs_network_discipline_witness :
  exists tr,
    trace (mkRun tt [RpcBlockNumber]) = trace (start tt) ++ tr
    /\ Forall (fun e => is_stdout e = false
                        /\ (is_network_access e = true ->
                            e = RpcBlockNumber \/ exists p, e = RpcGetLogs p)) tr.
Proof.
  exact (fetch_logs_network_discipline
           (scripted_node true (Some 1) None (Some demo_batch) Some)
           "0xabc" 10 600 None 0 (start tt) (mkRun tt [RpcBlockNumber])
           (Raised RpcError) eq_refl).
Defined.

Lemma main_stdout_discipline_witness :
  exists tr,
    trace (mkRun tt [RpcIsConnected "http://localhost:8545";
                     Stderr (MsgConnectFailed "http://localhost:8545")])
    = trace (start tt) ++ tr
    /\ Forall (fun e => is_stdout e = false) tr.
Proof.
  exact (main_stdout_discipline (scripted_node false None None None Some)
           "http://node" demo_args (start tt)
           (mkRun tt [RpcIsConnected "http://localhost:8545";
                      Stderr (MsgConnectFailed "http://localhost:8545")])
           (Exited 1) eq_refl).
Defined.

(** ** The encoding loses nothing *)

(** A run of characters of one class, closed by a character outside the
    class, can be read off the front of a string in one way only. *)
Lemma delimited_inj (p : ascii -> bool) (s s' : string) (c c' : ascii)
    (rest rest' : string) :
  all_chars p s = true -> all_chars p s' = true ->
  p c = false -> p c' = false ->
  s +:+ String c rest = s' +:+ String c' rest' ->
  s = s' /\ c = c' /\ rest = rest'.
Proof.
  revert s'. induction s as [|x s IH]; intros [|x' s'] Hs Hs' Hc Hc' E;
    cbn [String.append all_chars] in *.
  - injection E as -> ->. auto.
  - injection E as -> _. apply andb_true_iff in Hs' as [Hx _]. congruence.
  - injection E as -> _. apply andb_true_iff in Hs as [Hx _]. congruence.
  - injection E as -> E.
    apply andb_true_iff in Hs as [_ Hs]. apply andb_true_iff in Hs' as [_ Hs'].
    destruct (IH s' Hs Hs' Hc Hc' E) as (-> & -> & ->). auto.
Qed.

Lemma join_cons2 (sep p q : string) (rest : list string) :
  Py.join sep (p :: q :: rest) = p +:+ sep +:+ Py.join sep (q :: rest).
Proof. reflexivity. Qed.

(** A list of quoted hex strings, closed by the bracket. *)
Lemma quoted_list_inj (ts ts' : list string) (rest rest' : string) :
  Forall (fun t => is_normalized_hex t = true) ts ->
  Forall (fun t => is_normalized_hex t = true) ts' ->
  Py.join "," (map quoted ts) +:+ String "]" rest
  = Py.join "," (map quoted ts') +:+ String "]" rest' ->
  ts = ts' /\ rest = rest'.
Proof.
  intros H. revert ts'. induction H as [|t ts Ht Hts IH]; intros ts' H' E.
  - destruct H' as [|t' ts' Ht' _]; [now injection E as ->|].
    destruct ts'; discriminate E.
  - destruct H' as [|t' ts' Ht' Hts']; [destruct ts; discriminate E|].
    assert (forall (u : string) (us : list string) (tail : string),
              Py.join "," (map quoted (u :: us)) +:+ String "]" tail
              = String Py.dquote
                  (u +:+ String Py.dquote
                     (match us with
                      | [] => String "]" tail
                      | _ => String ","
                               (Py.join "," (map quoted us) +:+ String "]" tail)
                      end))) as Hshape.
    { intros u us tail. destruct us as [|v us].
      - cbn [map Py.join]. unfold quoted. cbn [String.append].
        now rewrite str_app_assoc.
      - cbn [map]. rewrite join_cons2. unfold quoted at 1. cbn [String.append].
        rewrite !str_app_assoc. reflexivity. }
    rewrite !Hshape in E. injection E as E.
    apply (delimited_inj is_hex_string_char) in E as (-> & _ & E);
      [|now apply normalized_hex_chars..|reflexivity|reflexivity].
    destruct ts as [|u ts], ts' as [|u' ts']; try discriminate E.
    + injection E as ->. auto.
    + injection E as E. destruct (IH _ Hts' E) as [-> ->]. auto.
Qed.

(** One record, whatever follows it. *)
Lemma canonical_record_inj (x y : Log) (rest rest' : string) :
  is_normalized x -> is_normalized y ->
  canonical_record x +:+ rest = canonical_record y +:+ rest' ->
  x = y /\ rest = rest'.
Proof.
  intros (Htx & Hd & Hts) (Htx' & Hd' & Hts').
  destruct x as [bn tx ix d ts], y as [bn' tx' ix' d' ts'].
  cbn [blockNumber transactionHash logIndex data topics] in *.
  unfold canonical_record, quoted.
  cbn [blockNumber transactionHash logIndex data topics].
  rewrite !str_app_assoc. cbn [String.append]. intros E.
  repeat match type of E with String _ _ = String _ _ => injection E as E end.
  apply (delimited_inj is_decimal_char) in E as (Hbn & _ & E);
    [|apply int_repr_decimal..|reflexivity|reflexivity].
  apply int_repr_inj in Hbn as ->.
  repeat match type of E with String _ _ = String _ _ => injection E as E end.
  rewrite ?str_app_assoc in E. cbn [String.append] in E.
  apply (delimited_inj is_hex_string_char) in E as (-> & _ & E);
    [|now apply normalized_hex_chars..|reflexivity|reflexivity].
  repeat match type of E with String _ _ = String _ _ => injection E as E end.
  apply (delimited_inj is_decimal_char) in E as (Hix & _ & E);
    [|apply int_repr_decimal..|reflexivity|reflexivity].
  apply int_repr_inj in Hix as ->.
  repeat match type of E with String _ _ = String _ _ => injection E as E end.
  rewrite ?str_app_assoc in E. cbn [String.append] in E.
  apply quoted_list_inj in E as (-> & E); [|assumption..].
  repeat match type of E with String _ _ = String _ _ => injection E as E end.
  rewrite ?str_app_assoc in E. cbn [String.append] in E.
  apply (delimited_inj is_hex_string_char) in E as (-> & _ & E);
    [|now apply normalized_hex_chars..|reflexivity|reflexivity].
  injection E as ->. auto.
Qed.

Lemma canonical_record_head (x : Log) :
  exists s, canonical_record x = String "{" s.
Proof. unfold canonical_record. cbn [String.append]. eauto. Qed.

Lemma canonical_records_inj (l l' : list Log) (rest rest' : string) :
  Forall is_normalized l -> Forall is_normalized l' ->
  Py.join "," (map canonical_record l) +:+ String "]" rest
  = Py.join "," (map canonical_record l') +:+ String "]" rest' ->
  l = l' /\ rest = rest'.
Proof.
  intros H. revert l'. induction H as [|x l Hx Hl IH]; intros l' H' E.
  - destruct H' as [|x' l' _ _]; [now injection E as ->|].
    exfalso. destruct (canonical_record_head x') as [s Hs].
    destruct l'; cbn [map Py.join] in E; rewrite Hs in E; discriminate E.
  - destruct H' as [|x' l' Hx' Hl'].
    { exfalso. destruct (canonical_record_head x) as [s Hs].
      destruct l; cbn [map Py.join] in E; rewrite Hs in E; discriminate E. }
    assert (forall (u : Log) (us : list Log) (tail : string),
              Py.join "," (map canonical_record (u :: us)) +:+ String "]" tail
              = canonical_record u
                +:+ match us with
                    | [] => String "]" tail
                    | _ => String ","
                             (Py.join "," (map canonical_record us)
                              +:+ String "]" tail)
                    end) as Hshape.
    { intros u us tail. destruct us as [|v us]; [reflexivity|].
      cbn [map]. rewrite join_cons2, !str_app_assoc. reflexivity. }
    rewrite !Hshape in E.
    apply canonical_record_inj in E as (-> & E); [|assumption..].
    destruct l as [|u l], l' as [|u' l']; try discriminate E.
    + injection E as ->. auto.
    + injection E as E. destruct (IH _ Hl' E) as [-> ->]. auto.
Qed.

Lemma canonical_encoding_inj (l l' : list Log) :
  Forall is_normalized l -> Forall is_normalized l' ->
  canonical_encoding l = canonical_encoding l' -> l = l'.
Proof.
  intros H H' E. unfold canonical_encoding in E. cbn [String.append] in E.
  injection E as E.
  now apply (canonical_records_inj l l' EmptyString EmptyString) in E as [-> _].
Qed.

(** [str.encode] is injective: the first byte of a character tells whether
    a second one belongs to it. *)
Lemma utf8_char_values (c : ascii) :
  map Byte.to_N (Py.utf8_char c)
  = if (N_of_ascii c <? 128)%N then [N_of_ascii c]
    else [(192 + N_of_ascii c / 64)%N; (128 + N_of_ascii c mod 64)%N].
Proof. destruct c as [[] [] [] [] [] [] [] []]; reflexivity. Qed.

Lemma N_of_ascii_inj (c c' : ascii) : N_of_ascii c = N_of_ascii c' -> c = c'.
Proof.
  intros E. rewrite <- (ascii_N_embedding c), <- (ascii_N_embedding c').
  now rewrite E.
Qed.

Lemma N_of_ascii_lt (c : ascii) : (N_of_ascii c < 256)%N.
Proof. destruct c as [[] [] [] [] [] [] [] []]; reflexivity. Qed.

Lemma encode_inj (s s' : string) : Py.encode s = Py.encode s' -> s = s'.
Proof.
  revert s'. induction s as [|c s IH]; intros [|c' s'] E; cbn [Py.encode] in E.
  - reflexivity.
  - apply (f_equal (map Byte.to_N)) in E. rewrite map_app, utf8_char_values in E.
    destruct (N_of_ascii c' <? 128)%N; discriminate E.
  - apply (f_equal (map Byte.to_N)) in E. rewrite map_app, utf8_char_values in E.
    destruct (N_of_ascii c <? 128)%N; discriminate E.
  - pose proof (f_equal (map Byte.to_N) E) as EN.
    rewrite !map_app, !utf8_char_values in EN.
    pose proof (N_of_ascii_lt c) as Hc. pose proof (N_of_ascii_lt c') as Hc'.
    assert (c = c' /\ Py.encode s = Py.encode s') as [-> Es].
    { destruct (N.ltb_spec (N_of_ascii c) 128), (N.ltb_spec (N_of_ascii c') 128);
        cbn [app] in EN.
      - injection EN as Ec _. apply N_of_ascii_inj in Ec as ->.
        split; [reflexivity|]. now apply app_inv_head in E.
      - injection EN as Ec _. exfalso.
        remember (N_of_ascii c' / 64)%N as q. lia.
      - injection EN as Ec _. exfalso.
        remember (N_of_ascii c / 64)%N as q. lia.
      - injection EN as E1 E2 _.
        assert (N_of_ascii c = N_of_ascii c') as Ec.
        { rewrite (N.div_mod (N_of_ascii c) 64), (N.div_mod (N_of_ascii c') 64) by lia.
          remember (N_of_ascii c / 64)%N as q.
          remember (N_of_ascii c' / 64)%N as q'.
          remember (N_of_ascii c mod 64)%N as m.
          remember (N_of_ascii c' mod 64)%N as m'. lia. }
        apply N_of_ascii_inj in Ec as ->.
        split; [reflexivity|]. now apply app_inv_head in E. }
    f_equal. now apply IH.
Qed.

(** The bytes that are hashed determine the sequence of records: two
    snapshots whose encodings coincide hold the same records in the same
    order, field by field. *)
Theorem encoded_bytes_determine_logs (prefixed prefixed' : bool)
    (from_block to_block from_block' to_block' : Z) (topic0 topic0' : option string)
    (max_logs max_logs' : Z) (retained retained' : list RawLog) :
  encoded (logs (snapshot_of prefixed from_block to_block topic0 max_logs retained))
  = encoded (logs (snapshot_of prefixed' from_block' to_block' topic0' max_logs'
                     retained')) ->
  logs (snapshot_of prefixed from_block to_block topic0 max_logs retained)
  = logs (snapshot_of prefixed' from_block' to_block' topic0' max_logs' retained').
Proof.
  rewrite !snapshot_logs. unfold encoded. intros E.
  apply encode_inj in E.
  rewrite !dumps_logs in E by apply sort_logs_normalized.
  apply canonical_encoding_inj in E; [exact E | apply sort_logs_normalized..].
Qed.

Lemma encoded_bytes_determine_logs_witness :
  logs (snapshot_of false 10 500 None 0 demo_batch)
  = logs (snapshot_of true 0 0 (Some "0x") 5 (rev demo_batch)).
Proof.
  apply (encoded_bytes_determine_logs false true 10 500 0 0 None (Some "0x") 0 5
           demo_batch (rev demo_batch)).
  vm_compute. reflexivity.
Defined.

(** ** Sorting again, and recomputing the commitment *)

Lemma sort_logs_fixpoint (l : list Log) :
  StronglySorted (may_precede log_lt) l -> sort_logs l = l.
Proof.
  unfold sort_logs. induction 1 as [|x l Hl IH Hx]; [reflexivity|].
  cbn [Py.sorted]. rewrite IH. destruct l as [|y l]; [reflexivity|].
  cbn [Py.insert]. apply Forall_inv in Hx. unfold may_precede in Hx.
  now rewrite Hx.
Qed.

(** The sequence of a snapshot is in canonical order already: whoever takes
    [logs] from the snapshot, sorts it by the same key and encodes it the
    same way arrives at the commitment of the snapshot. *)
Theorem commitment_recomputable_from_logs (prefixed : bool) (from_block to_block : Z)
    (topic0 : option string) (max_logs : Z) (retained : list RawLog) :
  let snap := snapshot_of prefixed from_block to_block topic0 max_logs retained in
  sort_logs (logs snap) = logs snap
  /\ commitmentKeccak (meta snap)
     = Py.HexBytes_hex prefixed
         (Keccak.keccak256
            (Py.encode
               (Py.dumps true "," ":"
                  (Py.JList (map log_to_json (sort_logs (logs snap))))))).
Proof.
  cbv zeta.
  assert (sort_logs (logs (snapshot_of prefixed from_block to_block topic0
                             max_logs retained))
          = logs (snapshot_of prefixed from_block to_block topic0 max_logs retained))
    as Hfix.
  { rewrite snapshot_logs. apply sort_logs_fixpoint.
    apply sorted_strongly_sorted; [apply log_lt_asym | apply may_precede_trans]. }
  split; [exact Hfix|]. rewrite Hfix.
  unfold snapshot_of. cbn [meta logs commitmentKeccak]. reflexivity.
Qed.

(** ** Normalization *)

Lemma to_hex_length (bs : list byte) :
  String.length (Py.to_hex bs) = (2 + 2 * length bs)%nat.
Proof.
  unfold Py.to_hex. cbn [String.append String.length].
  rewrite hexlify_length. lia.
Qed.

(** Normalization loses nothing and pads nothing: entries with the same
    rendering are the same entry, and every byte value of n bytes, the
    transaction hash, the data and each topic, becomes 0x and 2n lowercase
    hex digits; the integers are kept and so is the number of topics. *)
Theorem normalize_faithful (x y : RawLog) :
  (normalize x = normalize y -> x = y)
  /\ is_normalized (normalize x)
  /\ String.length (transactionHash (normalize x))
     = (2 + 2 * length (raw_transactionHash x))%nat
  /\ String.length (data (normalize x)) = (2 + 2 * length (raw_data x))%nat
  /\ length (topics (normalize x)) = length (raw_topics x)
  /\ map String.length (topics (normalize x))
     = map (fun t => (2 + 2 * length t)%nat) (raw_topics x)
  /\ blockNumber (normalize x) = raw_blockNumber x
  /\ logIndex (normalize x) = raw_logIndex x.
Proof.
  split; [apply normalize_inj|]. split; [apply normalize_is_normalized|].
  unfold normalize. cbn [transactionHash data topics blockNumber logIndex].
  rewrite !to_hex_length, length_map, map_map.
  repeat split.
  apply map_ext. intros t. apply to_hex_length.
Qed.

(** ** Truncation and arrival order *)

Lemma map_normalize_inj (l l' : list RawLog) :
  map normalize l = map normalize l' -> l = l'.
Proof.
  revert l'. induction l as [|x l IH]; intros [|y l'] E; try discriminate E.
  - reflexivity.
  - cbn [map] in E.
    pose proof (f_equal (hd (normalize x)) E) as Hxy.
    pose proof (f_equal (@tl Log) E) as Htl. cbn [hd tl] in Hxy, Htl.
    apply normalize_inj in Hxy as ->. f_equal. now apply IH.
Qed.

Lemma encoded_inj (l l' : list Log) :
  Forall is_normalized l -> Forall is_normalized l' ->
  encoded l = encoded l' -> l = l'.
Proof.
  intros H H' E. unfold encoded in E. apply encode_inj in E.
  rewrite !dumps_logs in E by assumption.
  now apply canonical_encoding_inj in E.
Qed.

(** When the batch is longer than a positive limit, the snapshot holds the
    records that arrived first, as many as the limit, sorted.  Two arrival
    orders of the same batch whose first records are not the same up to
    order therefore give different sequences and different bytes to
    hash. *)
Theorem truncation_depends_on_arrival_order (prefixed : bool)
    (from_block to_block : Z) (topic0 : option string) (max_logs : Z)
    (batch permuted : list RawLog) :
  Permutation batch permuted ->
  max_logs > 0 ->
  Z.of_nat (length batch) > max_logs ->
  let kept1 := firstn (Z.to_nat max_logs) batch in
  let kept2 := firstn (Z.to_nat max_logs) permuted in
  let s1 := snapshot_of prefixed from_block to_block topic0 max_logs
              (truncate max_logs batch) in
  let s2 := snapshot_of prefixed from_block to_block topic0 max_logs
              (truncate max_logs permuted) in
  logs s1 = sort_logs (map normalize kept1)
  /\ logs s2 = sort_logs (map normalize kept2)
  /\ Permutation (logs s1) (map normalize kept1)
  /\ Permutation (logs s2) (map normalize kept2)
  /\ length (logs s1) = Z.to_nat max_logs
  /\ length (logs s2) = Z.to_nat max_logs
  /\ (~ Permutation kept1 kept2 ->
      logs s1 <> logs s2 /\ encoded (logs s1) <> encoded (logs s2)).
Proof.
  intros HP Hpos Hlong. cbv zeta. rewrite !snapshot_logs.
  assert (forall l, Z.of_nat (length l) > max_logs ->
                    truncate max_logs l = firstn (Z.to_nat max_logs) l) as Htr.
  { intros l Hl. unfold truncate, truncates.
    destruct (Z.gtb_spec max_logs 0); [|lia].
    destruct (Z.gtb_spec (Z.of_nat (length l)) max_logs); [reflexivity | lia]. }
  pose proof (Permutation_length HP) as Hlen.
  rewrite (Htr batch Hlong), (Htr permuted) by (rewrite <- Hlen; exact Hlong).
  set (kept1 := firstn (Z.to_nat max_logs) batch).
  set (kept2 := firstn (Z.to_nat max_logs) permuted).
  assert (Forall is_normalized (sort_logs (map normalize kept1))) as Hn1.
  { apply (Permutation_Forall (Permutation_sym (sort_logs_perm _))).
    apply List.Forall_forall. intros x Hx.
    apply in_map_iff in Hx as [x0 [<- _]]. apply normalize_is_normalized. }
  assert (Forall is_normalized (sort_logs (map normalize kept2))) as Hn2.
  { apply (Permutation_Forall (Permutation_sym (sort_logs_perm _))).
    apply List.Forall_forall. intros x Hx.
    apply in_map_iff in Hx as [x0 [<- _]]. apply normalize_is_normalized. }
  assert (sort_logs (map normalize kept1) <> sort_logs (map normalize kept2)
          \/ Permutation kept1 kept2) as Hcases.
  { destruct (decide (sort_logs (map normalize kept1)
                      = sort_logs (map normalize kept2))) as [E|NE];
      [right | now left].
    assert (Permutation (map normalize kept1) (map normalize kept2)) as HPm.
    { rewrite <- (sort_logs_perm (map normalize kept1)), E.
      apply sort_logs_perm. }
    apply Permutation_map_inv in HPm as (l3 & E3 & HP3).
    apply map_normalize_inj in E3 as ->. now symmetry. }
  split; [reflexivity|]. split; [reflexivity|].
  split; [apply sort_logs_perm|]. split; [apply sort_logs_perm|].
  split; [rewrite sort_logs_length, length_map; subst kept1;
          rewrite length_firstn; lia|].
  split; [rewrite sort_logs_length, length_map; subst kept2;
          rewrite length_firstn; lia|].
  intros Hnp. destruct Hcases as [NE|HPk]; [|contradiction].
  split; [exact NE|].
  intros E. apply NE. now apply encoded_inj.
Qed.

Lemma truncation_depends_on_arrival_order_witness :
  Permutation arrival_abc arrival_cba
  /\ 1 > 0
  /\ Z.of_nat (length arrival_abc) > 1
  /\ ~ Permutation (firstn (Z.to_nat 1) arrival_abc) (firstn (Z.to_nat 1) arrival_cba)
  /\ commitment false (logs (snapshot_of false 0 200 None 1 (truncate 1 arrival_abc)))
     <> commitment false (logs (snapshot_of false 0 200 None 1 (truncate 1 arrival_cba)))
  /\ let kept1 := firstn (Z.to_nat 1) arrival_abc in
     let kept2 := firstn (Z.to_nat 1) arrival_cba in
     let s1 := snapshot_of false 0 200 None 1 (truncate 1 arrival_abc) in
     let s2 := snapshot_of false 0 200 None 1 (truncate 1 arrival_cba) in
     logs s1 = sort_logs (map normalize kept1)
     /\ logs s2 = sort_logs (map normalize kept2)
     /\ Permutation (logs s1) (map normalize kept1)
     /\ Permutation (logs s2) (map normalize kept2)
     /\ length (logs s1) = Z.to_nat 1
     /\ length (logs s2) = Z.to_nat 1
     /\ (~ Permutation kept1 kept2 ->
         logs s1 <> logs s2 /\ encoded (logs s1) <> encoded (logs s2)).
Proof.
  split; [apply Permutation_rev|]. split; [reflexivity|]. split; [reflexivity|].
  split.
  - intros HP. apply Permutation_length_1_inv in HP. discriminate HP.
  - split; [intros E; vm_compute in E; discriminate E|].
    exact (truncation_depends_on_arrival_order false 0 200 None 1
             arrival_abc arrival_cba (Permutation_rev arrival_abc)
             eq_refl eq_refl).
Defined.

(** ** Network names *)

Lemma network_name_spec (cid : Z) :
  network_name cid
  = if decide (1 = cid) then "Ethereum Mainnet"
    else if decide (11155111 = cid) then "Sepolia Testnet"
    else if decide (10 = cid) then "Optimism"
    else if decide (137 = cid) then "Polygon"
    else if decide (42161 = cid) then "Arbitrum One"
    else if decide (8453 = cid) then "Base"
    else "Unknown (chain ID " +:+ Py.int_repr cid +:+ ")".
Proof.
  unfold network_name, NETWORKS. cbn [list_to_map foldr fst snd curry uncurry].
  rewrite !lookup_insert, lookup_empty.
  repeat case_decide; reflexivity.
Qed.

(** The name tells the chain: two chain ids with the same name are the
    same, be they known or unknown, and an unknown id is named by its
    decimal numeral. *)
Theorem network_name_tells_chain (cid cid' : Z) :
  (network_name cid = network_name cid' -> cid = cid')
  /\ (NETWORKS !! cid = None ->
      network_name cid = "Unknown (chain ID " +:+ Py.int_repr cid +:+ ")").
Proof.
  split.
  - rewrite !network_name_spec.
    repeat case_decide; subst; try reflexivity; try discriminate;
      try congruence.
    cbn [String.append]. intros E.
    repeat match type of E with String _ _ = String _ _ => injection E as E end.
    apply (delimited_inj is_decimal_char) in E as (E & _);
      [|apply int_repr_decimal..|reflexivity|reflexivity].
    now apply int_repr_inj.
  - intros H. unfold network_name. now rewrite H.
Qed.

(** ** [json.dumps] with sorted keys *)

Lemma item_lt_asym (a b : string * string) :
  Py.str_lt (fst a) (fst b) = true -> Py.str_lt (fst b) (fst a) = false.
Proof. apply str_lt_asym. Qed.

Lemma item_precede_trans (a b c : string * string) :
  may_precede (fun x y => Py.str_lt (fst x) (fst y)) a b ->
  may_precede (fun x y => Py.str_lt (fst x) (fst y)) b c ->
  may_precede (fun x y => Py.str_lt (fst x) (fst y)) a c.
Proof.
  unfold may_precede. intros Hab Hbc.
  destruct (str_lt_trichotomy (fst c) (fst a)) as [H|[H|H]].
  - destruct (str_lt_trichotomy (fst b) (fst a)) as [H1|[H1|H1]]; [congruence| |].
    + rewrite <- H1 in H. congruence.
    + pose proof (str_lt_trans _ _ _ H H1). congruence.
  - rewrite H. apply str_lt_irrefl.
  - now apply str_lt_asym.
Qed.

Lemma nodup_keys_inj {V : Type} (l : list (string * V)) (x y : string * V) :
  NoDup (map fst l) -> In x l -> In y l -> fst x = fst y -> x = y.
Proof.
  induction l as [|z l IH]; [contradiction|].
  cbn [map]. intros Hnd Hx Hy Hk. apply NoDup_cons in Hnd as [Hz Hnd].
  destruct Hx as [->|Hx], Hy as [->|Hy].
  - reflexivity.
  - exfalso. apply Hz. rewrite Hk. apply list_elem_of_In, in_map, Hy.
  - exfalso. apply Hz. rewrite <- Hk. apply list_elem_of_In, in_map, Hx.
  - now apply IH.
Qed.

Lemma render_items_perm (key_sep : string) (items items' : list (string * string)) :
  NoDup (map fst items) -> Permutation items items' ->
  Py.render_items true key_sep items = Py.render_items true key_sep items'.
Proof.
  intros Hnd HP. unfold Py.render_items. f_equal.
  apply sorted_perm_eq; [apply item_lt_asym | apply item_precede_trans | | exact HP].
  intros x y Hx Hy Hxy Hyx. unfold may_precede in *.
  apply (nodup_keys_inj items); auto.
  destruct (str_lt_trichotomy (fst x) (fst y)) as [H|[H|H]]; congruence.
Qed.

(** With [sort_keys=True] the order in which a dictionary holds its keys
    does not show: the rendering of one entry is the same for every order
    of its five fields, and it is the canonical one. *)
Theorem dumps_ignores_key_order (x : Log) (items : list (string * Py.json)) :
  is_normalized x ->
  log_to_json x = Py.JDict items ->
  forall items', Permutation items items' ->
    Py.dumps true "," ":" (Py.JDict items') = canonical_record x.
Proof.
  intros Hx Hitems items' HP. rewrite <- (dumps_log x Hx), Hitems.
  cbn [Py.dumps]. do 3 f_equal.
  apply render_items_perm.
  - rewrite map_map. cbn [fst]. rewrite <- HP.
    unfold log_to_json in Hitems. injection Hitems as <-. cbn [map fst].
    apply (bool_decide_unpack _). vm_compute. exact I.
  - apply Permutation_map, Permutation_sym, HP.
Qed.

Lemma dumps_ignores_key_order_witness :
  is_normalized (normalize (mkRawLog 99 [xbb; xbb] 0 [] []))
  /\ Py.dumps true "," ":"
       (Py.JDict (rev [ ("blockNumber", Py.JInt 99);
                        ("transactionHash", Py.JStr "0xbbbb");
                        ("logIndex", Py.JInt 0);
                        ("data", Py.JStr "0x");
                        ("topics", Py.JList []) ]))
     = canonical_record (normalize (mkRawLog 99 [xbb; xbb] 0 [] [])).
Proof.
  split; [apply normalize_is_normalized|].
  apply (dumps_ignores_key_order (normalize (mkRawLog 99 [xbb; xbb] 0 [] [])) _
           (normalize_is_normalized _) eq_refl).
  apply Permutation_rev.
Defined.

(** ** Concrete runs for the further properties *)

Lemma fetch_logs_network_footprint_witness :
  exists snap r' tr,
    fetch_logs (fixed_node 500 (Some demo_batch)) "0xabc" 600 10 None 2 (start tt)
    = (Returned snap, r')
    /\ world r' = tt
    /\ trace r' = trace (start tt) ++ tr
    /\ List.filter is_network_access tr
       = [RpcBlockNumber; RpcGetLogs (request_of "0xabc" 600 10 500 None)].
Proof.
  exact (fetch_logs_network_footprint (fixed_node 500 (Some demo_batch))
           "0xabc" 600 10 None 2 (start tt) "0xabc" 500 tt tt demo_batch
           eq_refl eq_refl eq_refl).
Defined.

Lemma topic_filter_sent_as_given_witness :
  exists snap r' tr,
    fetch_logs (fixed_node 500 (Some demo_batch)) "0xabc" 600 10 (Some " 0x12 ") 2
      (start tt)
    = (Returned snap, r')
    /\ trace r' = trace (start tt) ++ tr
    /\ (forall p, In (RpcGetLogs p) tr ->
          topics_filter p
          = match Some " 0x12 " with
            | None | Some EmptyString => None
            | Some t => Some [Py.strip t]
            end)
    /\ (In (Stderr MsgTopic0NotBytes32) tr <->
        exists t, Some " 0x12 " = Some t /\ t <> EmptyString
                  /\ (Py.startswith (Py.strip t) "0x" = false
                      \/ String.length (Py.strip t) <> 66%nat))
    /\ topic0Filter (meta snap) = Some " 0x12 ".
Proof.
  exact (topic_filter_sent_as_given (fixed_node 500 (Some demo_batch))
           "0xabc" 600 10 (Some " 0x12 ") 2 (start tt) "0xabc" 500 tt tt demo_batch
           eq_refl eq_refl eq_refl).
Defined.

Lemma truncation_is_reported_witness :
  exists snap r' tr,
    fetch_logs (fixed_node 500 (Some demo_batch)) "0xabc" 600 10 None 2 (start tt)
    = (Returned snap, r')
    /\ trace r' = trace (start tt) ++ tr
    /\ (In (Stderr (MsgTruncating (length demo_batch) 2)) tr <->
        2 > 0 /\ Z.of_nat (length demo_batch) > 2)
    /\ In (Stderr (MsgRpcReturned (length demo_batch))) tr
    /\ maxLogs (meta snap) = 2.
Proof.
  exact (truncation_is_reported (fixed_node 500 (Some demo_batch))
           "0xabc" 600 10 None 2 (start tt) "0xabc" 500 tt tt demo_batch
           eq_refl eq_refl eq_refl).
Defined.

Lemma snapshot_counts_bounded_witness :
  exists snap r',
    fetch_logs (fixed_node 500 (Some demo_batch)) "0xabc" 600 10 None 2 (start tt)
    = (Returned snap, r')
    /\ logCount (meta snap) = Z.of_nat (length (logs snap))
    /\ logCount (meta snap) <= Z.of_nat (length demo_batch)
    /\ (2 > 0 -> logCount (meta snap) <= 2)
    /\ 0 <= uniqueTxCount (meta snap) <= logCount (meta snap)
    /\ (uniqueTxCount (meta snap) = 0 <-> logCount (meta snap) = 0).
Proof.
  exact (snapshot_counts_bounded (fixed_node 500 (Some demo_batch))
           "0xabc" 600 10 None 2 (start tt) "0xabc" 500 tt tt demo_batch
           eq_refl eq_refl eq_refl).
Defined.

(** Bounds beyond the tip: the cut leaves the requested range inverted. *)
Lemma requested_range_ordered_iff_witness :
  exists snap r',
    fetch_logs (fixed_node 500 (Some [])) "0xabc" 700 600 None 2 (start tt)
    = (Returned snap, r')
    /\ fromBlockRequested (meta snap) = Z.min 700 600
    /\ toBlockRequested (meta snap) = Z.min (Z.max 700 600) 500
    /\ (fromBlockRequested (meta snap) <= toBlockRequested (meta snap)
        <-> Z.min 700 600 <= 500).
Proof.
  exact (requested_range_ordered_iff (fixed_node 500 (Some []))
           "0xabc" 700 600 None 2 (start tt) "0xabc" 500 tt tt []
           eq_refl eq_refl eq_refl).
Defined.

Lemma commitment_is_hex_digest_witness :
  exists snap r' digits,
    fetch_logs (fixed_node 500 (Some demo_batch)) "0xabc" 600 10 None 2 (start tt)
    = (Returned snap, r')
    /\ commitmentKeccak (meta snap)
       = (if hexbytes_prefixed (fixed_node 500 (Some demo_batch))
          then "0x" else EmptyString) +:+ digits
    /\ String.length digits = 64%nat
    /\ all_chars is_lower_hex_char digits = true.
Proof.
  exact (commitment_is_hex_digest (fixed_node 500 (Some demo_batch))
           "0xabc" 600 10 None 2 (start tt) "0xabc" 500 tt tt demo_batch
           eq_refl eq_refl eq_refl).
Defined.

Lemma normalize_faithful_witness :
  normalize (mkRawLog 99 [xbb; xbb] 0 [x01] [[x0f]; [xff; x00]])
  = normalize (mkRawLog 99 [xbb; xbb] 0 [x01] [[x0f]; [xff; x00]])
  /\ mkRawLog 99 [xbb; xbb] 0 [x01] [[x0f]; [xff; x00]]
     = mkRawLog 99 [xbb; xbb] 0 [x01] [[x0f]; [xff; x00]]
  /\ normalize (mkRawLog 99 [xbb; xbb] 0 [x01] [[x0f]; [xff; x00]])
     <> normalize (mkRawLog 99 [xbb; xbb] 0 [x01] [[x0f]; [xff]])
  /\ topics (normalize (mkRawLog 99 [xbb; xbb] 0 [x01] [[x0f]; [xff; x00]]))
     = ["0x0f"; "0xff00"].
Proof.
  split; [reflexivity|]. split.
  - exact (proj1 (normalize_faithful
                    (mkRawLog 99 [xbb; xbb] 0 [x01] [[x0f]; [xff; x00]])
                    (mkRawLog 99 [xbb; xbb] 0 [x01] [[x0f]; [xff; x00]])) eq_refl).
  - split.
    + intros E.
      apply (proj1 (normalize_faithful
                      (mkRawLog 99 [xbb; xbb] 0 [x01] [[x0f]; [xff; x00]])
                      (mkRawLog 99 [xbb; xbb] 0 [x01] [[x0f]; [xff]]))) in E.
      discriminate E.
    + reflexivity.
Defined.

Lemma network_name_tells_chain_witness :
  NETWORKS !! 5 = None /\ network_name 5 = "Unknown (chain ID " +:+ Py.int_repr 5 +:+ ")".
Proof.
  split; [reflexivity|].
  exact (proj2 (network_name_tells_chain 5 5) eq_refl).
Defined.
